(** * blockid SDK: session, connection and secure-link core

    A shallow embedding of the classes [ApiSession] and [Api]
    ([src/api/ApiSession.ts]) and [Sdk] ([src/sdk/Sdk.ts]).  Mutable
    objects become records that are threaded through the operations; a
    method that can throw returns a [Res] together with the state it left
    behind; promises are run to completion in one step (the single task
    queue of the SDK), their outcomes being supplied by an explicit
    environment. *)

From Stdlib Require Import List String Bool Arith Lia.
From stdpp Require Import base option list gmap strings pretty.
Import ListNotations.

Local Open Scope string_scope.

(** ** The class [ApiSession] *)

Module ApiSession.

(** [ApiSessionStates] of [./constants]. *)
Inductive ApiSessionStates : Type :=
| Destroyed
| Verifying
| Verified.

#[global] Instance ApiSessionStates_eq_dec : EqDecision ApiSessionStates.
Proof. solve_decision. Defined.

(** [IApiSessionAttributes]; a [token] of [None] is JavaScript's [null]. *)
Record IApiSessionAttributes : Type := {
  state : ApiSessionStates;
  token : option string;
}.

(** An object literal handed to the [attributes] setter: each key is
    either present or left out. *)
Record AttributesLiteral : Type := {
  lit_state : option ApiSessionStates;
  lit_token : option (option string);
}.

(** [{ ...result, ...attributes }]: keys of the right operand win. *)
Definition spread (result : IApiSessionAttributes) (attributes : AttributesLiteral)
  : IApiSessionAttributes :=
  {| state := default (state result) (lit_state attributes);
     token := default (token result) (lit_token attributes) |}.

Definition prepareAttributes (attributes : option AttributesLiteral)
  : IApiSessionAttributes :=
  let result := {| state := Destroyed; token := None |} in
  match attributes with
  | Some a => spread result a
  | None => result
  end.

(** The session object: the prepared attributes, and the values of
    [state] that went through the [attributes] setter, oldest first (what
    an observer of [state$] can have seen). *)
Record t : Type := {
  attributes : IApiSessionAttributes;
  assigned : list ApiSessionStates;
}.

(** [this.attributes = a], with [prepare: ApiSession.prepareAttributes]. *)
Definition set_attributes (a : option AttributesLiteral) (s : t) : t :=
  let prepared := prepareAttributes a in
  {| attributes := prepared; assigned := assigned s ++ [state prepared] |}.

(** [super(null, ...)] in the constructor. *)
Definition create : t :=
  {| attributes := prepareAttributes None; assigned := [] |}.

Definition verified (s : t) : bool :=
  bool_decide (state (attributes s) = Verified).

Definition setAsVerifying (token : option string) (s : t) : t :=
  set_attributes
    (Some {| lit_token := Some token; lit_state := Some Verifying |}) s.

Definition setAsVerified (token : option string) (s : t) : t :=
  set_attributes
    (Some {| lit_token := Some token; lit_state := Some Verified |}) s.

Definition setAsDestroyed (s : t) : t := set_attributes None s.

(** The three transition operations as data, to speak about sequences of
    calls. *)
Inductive Transition : Type :=
| SetAsVerifying (token : option string)
| SetAsVerified (token : option string)
| SetAsDestroyed.

Definition apply (tr : Transition) (s : t) : t :=
  match tr with
  | SetAsVerifying tok => setAsVerifying tok s
  | SetAsVerified tok => setAsVerified tok s
  | SetAsDestroyed => setAsDestroyed s
  end.

Definition run (trs : list Transition) (s : t) : t :=
  fold_left (fun acc tr => apply tr acc) trs s.

(** [token != null] only when [state == Verified]. *)
Definition invariant (s : t) : Prop :=
  token (attributes s) <> None -> state (attributes s) = Verified.

(** A call that leaves [setAsVerifying]'s parameter at its default. *)
Definition default_arguments (tr : Transition) : Prop :=
  match tr with
  | SetAsVerifying tok => tok = None
  | _ => True
  end.

End ApiSession.

(** ** Exceptions and effects *)

(** The values the modelled code throws. *)
Inductive Error : Type :=
| errApiInvalidConnectionState
| errApiUnknownHttpEndpoint
| errApiUnknownWsEndpoint
| TypeError          (* a property read or a destructuring of [null] *)
| SyntaxError        (* [JSON.parse] of a malformed body *)
| SignerError.       (* a rejection of the device's signing promise *)

#[global] Instance Error_eq_dec : EqDecision Error.
Proof. solve_decision. Defined.

(** How a call ends: normally with a value, or by throwing. *)
Inductive Res (A : Type) : Type :=
| Ok (a : A)
| Throw (e : Error).

Arguments Ok {A} a.
Arguments Throw {A} e.

(** A method of an object with state [S]: whatever it wrote before it
    threw stays written. *)
Definition M (S A : Type) : Type := S -> Res A * S.

Definition ret {S A} (a : A) : M S A := fun s => (Ok a, s).

Definition throw {S A} (e : Error) : M S A := fun s => (Throw e, s).

Definition bind {S A B} (m : M S A) (k : A -> M S B) : M S B :=
  fun s =>
    match m s with
    | (Ok a, s') => k a s'
    | (Throw e, s') => (Throw e, s')
    end.

(** [try { m } catch (err) { h err }]. *)
Definition try_catch {S A} (m : M S A) (h : Error -> M S A) : M S A :=
  fun s =>
    match m s with
    | (Ok a, s') => (Ok a, s')
    | (Throw e, s') => h e s'
    end.

(** [try { m } finally { f }]: [f] runs on both exits, and an exception of
    [f] replaces the outcome of [m]. *)
Definition try_finally {S A} (m : M S A) (f : M S unit) : M S A :=
  fun s =>
    match m s with
    | (r, s') =>
        match f s' with
        | (Ok _, s'') => (r, s'')
        | (Throw e, s'') => (Throw e, s'')
        end
    end.

Definition get {S} : M S S := fun s => (Ok s, s).

Definition modify {S} (f : S -> S) : M S unit := fun s => (Ok tt, f s).

(** Lifts a method of a component to the object that owns it. *)
Definition zoom {S T A} (proj : S -> T) (upd : T -> S -> S) (m : M T A) : M S A :=
  fun s =>
    match m (proj s) with
    | (r, c) => (r, upd c s)
    end.

Declare Scope js_scope.
Delimit Scope js_scope with js.

Notation "x <- m ;; k" := (bind m (fun x => k))
  (at level 100, m at next level, right associativity) : js_scope.
Notation "m ;;; k" := (bind m (fun _ => k))
  (at level 100, right associativity) : js_scope.

(** A binary buffer. *)
Definition Buffer : Type := list Byte.byte.

(** ** The events of [./events] *)

Module ApiEvents.

Inductive Types : Type :=
| ConnectionMuted
| ConnectionUnMuted
| MuteConnection
| UnMuteConnection
| AccountUpdated
| AccountDeviceAdded
| AccountDeviceUpdated
| AccountDeviceRemoved
| SignedSecureAction.

#[global] Instance Types_eq_dec : EqDecision Types.
Proof. solve_decision. Defined.

(** A member that is compared with [===]: left out ([undefined]), [null],
    or a string. *)
Inductive Nullable : Type :=
| Absent
| Null
| Given (value : string).

#[global] Instance Nullable_eq_dec : EqDecision Nullable.
Proof. solve_decision. Defined.

(** What a function that returns a string or [null] returned, as a member. *)
Definition returned (r : option string) : Nullable :=
  match r with
  | Some value => Given value
  | None => Null
  end.

(** The string of a member, if it is one. *)
Definition given (m : Nullable) : option string :=
  match m with
  | Given value => Some value
  | _ => None
  end.

(** [ApiEvents.Payloads]: [IAccount], [IAccountDevice] and
    [ISignedSecureAction]; a [recipient] of [None] is absent. *)
Inductive Payload : Type :=
| IAccount (ensName : string)
| IAccountDevice (account address : string)
| ISignedSecureAction (signer : Nullable) (recipient : option string) (signature : string).

(** [IApiEvent]: [{ type, payload? }]. *)
Record IApiEvent : Type := {
  type : Types;
  payload : option Payload;
}.

End ApiEvents.

(** ** The persistent connection *)

Module ApiConnection.

Inductive ApiConnectionStates : Type :=
| Closed
| Connecting
| Opened.

#[global] Instance ApiConnectionStates_eq_dec : EqDecision ApiConnectionStates.
Proof. solve_decision. Defined.

(** Modelled from the spec: the class [ApiConnection] of
    [src/api/ApiConnection.ts], which is not among the sources.  The
    record holds the state and the muted flag of section 3, with the frames
    handed to the transport and the (endpoint, token) pairs of the opened
    channels, oldest first. *)
Record t : Type := {
  state : ApiConnectionStates;
  muted : bool;
  sent : list Buffer;
  opens : list (option string * option string);
}.

Definition create : t :=
  {| state := Closed; muted := false; sent := []; opens := [] |}.

(** Modelled from the spec: the getter [opened] of the missing class. *)
Definition opened (c : t) : bool := bool_decide (state c = Opened).

(** Modelled from the spec: [open(endpoint, token)] of the missing class;
    "transitions to Connecting, then Opened on success or back to Closed on
    failure".  [ok] is the outcome of the attempt. *)
Definition open (ok : bool) (endpoint : option string) (token : option string) (c : t) : t :=
  {| state := if ok then Opened else Closed;
     muted := muted c;
     sent := sent c;
     opens := opens c ++ [(endpoint, token)] |}.

(** Modelled from the spec: [close(silent)] of the missing class. *)
Definition close (silent : bool) (c : t) : t :=
  {| state := Closed; muted := muted c; sent := sent c; opens := opens c |}.

(** The connection once [frame] went out on it. *)
Definition transmitted (frame : Buffer) (c : t) : t :=
  {| state := state c; muted := muted c; sent := sent c ++ [frame]; opens := opens c |}.

(** Modelled from the spec: [send(frame)] of the missing class; "fails with
    InvalidConnectionState unless state == Opened". *)
Definition send (frame : Buffer) : M t unit :=
  fun c =>
    if opened c
    then (Ok tt, transmitted frame c)
    else (Throw errApiInvalidConnectionState, c).

(** Modelled from the spec: the setter of [muted]. *)
Definition set_muted (b : bool) (c : t) : t :=
  {| state := state c; muted := b; sent := sent c; opens := opens c |}.

End ApiConnection.

(** ** The interval timers of the JavaScript runtime *)

Module Timers.

(** The intervals that are armed, and the next handle to give out.
    Handles are positive, hence truthy. *)
Record t : Type := {
  active : gset positive;
  next : positive;
}.

Definition create : t := {| active := ∅; next := 1%positive |}.

Definition setInterval (tm : t) : positive * t :=
  (next tm, {| active := {[ next tm ]} ∪ active tm; next := Pos.succ (next tm) |}).

Definition clearInterval (id : positive) (tm : t) : t :=
  {| active := active tm ∖ {[ id ]}; next := next tm |}.

End Timers.

(** ** The class [Api] *)

Module Api.

Import ApiEvents.
Local Open Scope js_scope.

Record IApiOptions : Type := {
  host : option string;
  port : option nat;
  ssl : bool;
  manualAuth : bool;
  reconnectTimeout : option nat;
}.

Inductive Protocol : Type := http_ | ws_.

Definition protocol_name (p : Protocol) : string :=
  match p with http_ => "http" | ws_ => "ws" end.

(** Truthiness of a string that may be [null]. *)
Definition truthy (s : option string) : bool :=
  match s with
  | Some x => negb (String.eqb x "")
  | None => false
  end.

(** Truthiness of a number that may be [null]. *)
Definition nonzero (n : option nat) : bool :=
  match n with
  | Some k => negb (Nat.eqb k 0)
  | None => false
  end.

Definition buildEndpoint (protocol : Protocol) (options : option IApiOptions)
  : option string :=
  match options with
  | Some o =>
      Some (protocol_name protocol
            ++ (if ssl o then "s" else "")
            ++ "://"
            ++ (if truthy (host o) then default "" (host o) else "localhost")
            ++ (if nonzero (port o) then ":" ++ pretty (default 0 (port o)) else ""))
  | None => None
  end.

Record Endpoints : Type := {
  http : option string;
  ws : option string;
}.

(** The [Api] object, with what it owns or closes over: the session, the
    connection, the device's address, the runtime's timers, and the errors
    that went out on [error$], oldest first. *)
Record t : Type := {
  session : ApiSession.t;
  options : option IApiOptions;
  endpoints : Endpoints;
  reconnectInterval : option positive;
  connection : ApiConnection.t;
  device_address : option string;
  timers : Timers.t;
  errors : list Error;
}.

Definition with_session (f : ApiSession.t -> ApiSession.t) (s : t) : t :=
  {| session := f (session s); options := options s; endpoints := endpoints s;
     reconnectInterval := reconnectInterval s; connection := connection s;
     device_address := device_address s; timers := timers s; errors := errors s |}.

Definition with_connection (c : ApiConnection.t) (s : t) : t :=
  {| session := session s; options := options s; endpoints := endpoints s;
     reconnectInterval := reconnectInterval s; connection := c;
     device_address := device_address s; timers := timers s; errors := errors s |}.

Definition with_options (o : option IApiOptions) (s : t) : t :=
  {| session := session s; options := o; endpoints := endpoints s;
     reconnectInterval := reconnectInterval s; connection := connection s;
     device_address := device_address s; timers := timers s; errors := errors s |}.

Definition with_endpoints (e : Endpoints) (s : t) : t :=
  {| session := session s; options := options s; endpoints := e;
     reconnectInterval := reconnectInterval s; connection := connection s;
     device_address := device_address s; timers := timers s; errors := errors s |}.

Definition with_device_address (a : option string) (s : t) : t :=
  {| session := session s; options := options s; endpoints := endpoints s;
     reconnectInterval := reconnectInterval s; connection := connection s;
     device_address := a; timers := timers s; errors := errors s |}.

Definition with_timers (tm : Timers.t) (s : t) : t :=
  {| session := session s; options := options s; endpoints := endpoints s;
     reconnectInterval := reconnectInterval s; connection := connection s;
     device_address := device_address s; timers := tm; errors := errors s |}.

Definition with_reconnectInterval (h : option positive) (s : t) : t :=
  {| session := session s; options := options s; endpoints := endpoints s;
     reconnectInterval := h; connection := connection s;
     device_address := device_address s; timers := timers s; errors := errors s |}.

(** [error$.next(err)]. *)
Definition emit_error (e : Error) (s : t) : t :=
  {| session := session s; options := options s; endpoints := endpoints s;
     reconnectInterval := reconnectInterval s; connection := connection s;
     device_address := device_address s; timers := timers s;
     errors := errors s ++ [e] |}.

(** [error$.wrapAsync(() => m)] of rxjs-addons: a rejection of the wrapped
    promise goes out on [error$] and is not thrown further. *)
Definition wrapAsync (m : M t unit) : M t unit :=
  try_catch m (fun e => modify (emit_error e)).

(** What the backend answers to one request: nothing (the [fetch] threw),
    a body that is not JSON, the JSON body [null], or another JSON body
    with its [data] member ([None] when it has none, or a falsy one). *)
Inductive Fetched (D : Type) : Type :=
| NetworkError
| Malformed
| NullBody
| Body (data : option D).

Arguments NetworkError {D}.
Arguments Malformed {D}.
Arguments NullBody {D}.
Arguments Body {D} data.

(** [call(req)] followed by the caller's [const { data } = ...] and
    [return data || null]: [JSON.parse] throws on a body that is not JSON,
    and the destructuring throws on the body [null]. *)
Definition call {D : Type} (reply : Fetched D) : M t (option D) :=
  s <- get ;;
  if negb (truthy (http (endpoints s)))
  then throw errApiUnknownHttpEndpoint
  else
    match reply with
    | NetworkError => ret None
    | Malformed => throw SyntaxError
    | NullBody => throw TypeError
    | Body data => ret data
    end.

(** The world around one run of [createSession]: the backend's answers,
    the device's signing, and whether the channel opens.  The [data] of
    [POST session] is given by its member [hash] and the [data] of
    [PUT session] by its member [token], [None] when the member is not
    there; the device signs what it is handed, a hash or [undefined]. *)
Record Env : Type := {
  post_session : Fetched (option Buffer);
  signPersonalMessage : option Buffer -> Res Buffer;
  put_session : option Buffer -> option string -> Buffer -> Fetched (option string);
  connects : bool;
}.

Definition createSessionHash (env : Env) : M t (option (option Buffer)) :=
  call (post_session env).

Definition verifySessionHash (env : Env) (hash : option Buffer) (signer : option string)
    (signature : Buffer) : M t (option (option string)) :=
  call (put_session env hash signer signature).

(** [session.signHash(hash)]. *)
Definition signHash (env : Env) (hash : option Buffer)
  : M t (option string * Buffer) :=
  s <- get ;;
  let signer := device_address s in
  match signPersonalMessage env hash with
  | Ok signature => ret (signer, signature)
  | Throw e => throw e
  end.

Definition clearReconnectInterval : M t unit :=
  s <- get ;;
  match reconnectInterval s with
  | Some id => modify (with_timers (Timers.clearInterval id (timers s)))
  | None => ret tt
  end.

(** The closure [open] of [openConnection]. *)
Definition open (ok : bool) (s : t) : t :=
  with_connection
    (ApiConnection.open ok (ws (endpoints s))
       (ApiSession.token (ApiSession.attributes (session s))) (connection s)) s.

Definition openConnection (ok : bool) : M t unit :=
  clearReconnectInterval ;;;
  s <- get ;;
  if negb (truthy (ws (endpoints s)))
  then throw errApiUnknownWsEndpoint
  else if negb (ApiSession.verified (session s))
  then ret tt
  else
    match options s with
    | None => throw TypeError
    | Some o =>
        modify (open ok) ;;;
        if nonzero (reconnectTimeout o)
        then
          modify (fun s' =>
                    let (id, tm) := Timers.setInterval (timers s') in
                    with_reconnectInterval (Some id) (with_timers tm s'))
        else ret tt
    end.

Definition closeConnection : M t unit :=
  clearReconnectInterval ;;;
  modify (fun s => with_connection (ApiConnection.close true (connection s)) s).

(** One firing of the interval [id]. *)
Definition tick (ok : bool) (id : positive) : M t unit :=
  s <- get ;;
  if bool_decide (id ∈ Timers.active (timers s))
  then
    match ApiConnection.state (connection s) with
    | ApiConnection.Closed => modify (open ok)
    | _ => ret tt
    end
  else ret tt.

Definition createSession (env : Env) : M t unit :=
  try_catch
    (modify (with_session (ApiSession.setAsVerifying None)) ;;;
     data <- createSessionHash env ;;
     match data with
     | None => throw TypeError
     | Some hash =>
         sg <- signHash env hash ;;
         data' <- verifySessionHash env hash (fst sg) (snd sg) ;;
         match data' with
         | None => throw TypeError
         | Some token => modify (with_session (ApiSession.setAsVerified token))
         end
     end)
    (fun _ => modify (with_session ApiSession.setAsDestroyed)) ;;;
  openConnection (connects env).

Definition destroySession : M t unit :=
  modify (with_session ApiSession.setAsDestroyed) ;;;
  closeConnection.

Section Events.

Variable encodeApiEvent : IApiEvent -> Buffer.
Variable anyToHex : Buffer -> string.

Definition sendEvent (event : IApiEvent) : M t unit :=
  s <- get ;;
  if negb (ApiConnection.opened (connection s))
  then throw errApiInvalidConnectionState
  else zoom connection with_connection (ApiConnection.send (encodeApiEvent event)).

Definition muteConnection : M t unit :=
  sendEvent {| type := MuteConnection; payload := None |}.

Definition unMuteConnection : M t unit :=
  sendEvent {| type := UnMuteConnection; payload := None |}.

Definition signSecureAction (recipient : option string) (signature : Buffer) : M t unit :=
  sendEvent {| type := SignedSecureAction;
               payload := Some (ISignedSecureAction Absent recipient (anyToHex signature)) |}.

End Events.

(** The first subscriber of [options$]. *)
Definition on_options : M t unit :=
  modify (fun s =>
            with_endpoints {| ws := buildEndpoint ws_ (options s);
                              http := buildEndpoint http_ (options s) |} s) ;;;
  modify (with_session ApiSession.setAsDestroyed).

(** [this.options && !!device.address && !this.options.manualAuth]. *)
Definition canAuth (s : t) : bool :=
  match options s with
  | Some o => truthy (device_address s) && negb (manualAuth o)
  | None => false
  end.

(** The subscriber of [merge(this.options$, device.address$)]. *)
Definition autoAuth (env : Env) : M t unit :=
  s <- get ;;
  if canAuth s
  then wrapAsync (createSession env)
  else destroySession.

(** What drives the subscribers: [options$] emits a value, or the
    device's [address$] does. *)
Inductive Emission : Type :=
| OptionsChanged (o : option IApiOptions)
| AddressChanged (a : option string).

Definition emit (env : Env) (e : Emission) : M t unit :=
  match e with
  | OptionsChanged o =>
      modify (with_options o) ;;;
      on_options ;;;
      autoAuth env
  | AddressChanged a =>
      modify (with_device_address a) ;;;
      autoAuth env
  end.

(** The object before the constructor's subscriptions have seen a value. *)
Definition create : t :=
  {| session := ApiSession.create;
     options := None;
     endpoints := {| http := None; ws := None |};
     reconnectInterval := None;
     connection := ApiConnection.create;
     device_address := None;
     timers := Timers.create;
     errors := [] |}.

End Api.

(** ** The class [Sdk] *)

Module Sdk.

Import ApiEvents.
Local Open Scope js_scope.

(** The members of [LinkerActionsTypes] the source names. *)
Inductive LinkerActionsTypes : Type :=
| CreateAccountDevice
| AccountDeviceCreated
| Secure.

#[global] Instance LinkerActionsTypes_eq_dec : EqDecision LinkerActionsTypes.
Proof. solve_decision. Defined.

(** [LinkerActionSenderTypes]: the member the source names, and the
    members it does not name. *)
Inductive LinkerActionSenderTypes : Type :=
| Device
| OtherSender (name : string).

(** [LinkerActionPayloads]. *)
Inductive LinkerActionPayload : Type :=
| ICreateAccountDevice (networkVersion : option nat) (deviceAddress appName : option string)
| ISecure (networkVersion : option nat) (hash : Buffer).

Record Sender : Type := {
  sender_type : LinkerActionSenderTypes;
  sender_data : option string;
}.

Record ILinkerAction : Type := {
  action_type : LinkerActionsTypes;
  action_payload : LinkerActionPayload;
  sender : option Sender;
}.

(** [ISdkSecureAction]: the outstanding challenge. *)
Record ISdkSecureAction : Type := {
  secure_type : LinkerActionsTypes;
  secure_hash : Buffer;
}.

(** The members of a JSON object that the source does not read. *)
Definition Members : Type := list (string * string).

Record IAccountAttributes : Type := {
  ensName : option string;
  account_members : Members;
}.

Definition IAccountDeviceAttributes : Type := Members.

(** The [Sdk] object with its collaborators: the [Api], the outstanding
    challenge, the attributes of the account and of the account device,
    the network's version, the errors that went out on the Sdk's [error$]
    and the actions that went out on [linker.incomingAction$]. *)
Record t : Type := {
  api : Api.t;
  secureAction : option ISdkSecureAction;
  account : option IAccountAttributes;
  accountDevice : option IAccountDeviceAttributes;
  network_version : option nat;
  errors : list Error;
  incomingAction : list ILinkerAction;
}.

Definition with_api (a : Api.t) (s : t) : t :=
  {| api := a; secureAction := secureAction s; account := account s;
     accountDevice := accountDevice s; network_version := network_version s;
     errors := errors s; incomingAction := incomingAction s |}.

Definition with_secureAction (c : option ISdkSecureAction) (s : t) : t :=
  {| api := api s; secureAction := c; account := account s;
     accountDevice := accountDevice s; network_version := network_version s;
     errors := errors s; incomingAction := incomingAction s |}.

Definition with_account (a : option IAccountAttributes) (s : t) : t :=
  {| api := api s; secureAction := secureAction s; account := a;
     accountDevice := accountDevice s; network_version := network_version s;
     errors := errors s; incomingAction := incomingAction s |}.

Definition with_accountDevice (a : option IAccountDeviceAttributes) (s : t) : t :=
  {| api := api s; secureAction := secureAction s; account := account s;
     accountDevice := a; network_version := network_version s;
     errors := errors s; incomingAction := incomingAction s |}.

(** [this.error$.next(err)]. *)
Definition emit_error (e : Error) (s : t) : t :=
  {| api := api s; secureAction := secureAction s; account := account s;
     accountDevice := accountDevice s; network_version := network_version s;
     errors := errors s ++ [e]; incomingAction := incomingAction s |}.

(** [this.linker.incomingAction$.next(action)]. *)
Definition next_incomingAction (a : ILinkerAction) (s : t) : t :=
  {| api := api s; secureAction := secureAction s; account := account s;
     accountDevice := accountDevice s; network_version := network_version s;
     errors := errors s; incomingAction := incomingAction s ++ [a] |}.

(** A method of the [Api] run on [this.api]. *)
Definition on_api {A} (m : M Api.t A) : M t A := zoom api with_api m.

(** [error$.wrapTAsync(m)] of rxjs-addons: a rejection goes out on the
    Sdk's [error$] and the wrapper resolves without a value. *)
Definition wrapTAsync {A} (m : M t A) : M t (option A) :=
  try_catch (a <- m ;; ret (Some a)) (fun e => modify (emit_error e) ;;; ret None).

Definition createApiSession (env : Api.Env) : M t (option unit) :=
  wrapTAsync (on_api (Api.createSession env)).

Definition destroyApiSession : M t unit := on_api Api.destroySession.

(** [randomBytes(size)] over an explicit source of bytes. *)
Definition randomBytes (size : nat) (entropy : nat -> Byte.byte) : Buffer :=
  map entropy (seq 0 size).

(** Modelled from the spec: the getter [ensName] of the class [Account],
    which is not among the sources: the name in the attributes, if any. *)
Definition account_ensName (s : t) : option string :=
  match account s with
  | Some a => ensName a
  | None => None
  end.

(** The backend's answers to the two fetches of the account-updated
    handler. *)
Record Env : Type := {
  getAccount : Api.Fetched IAccountAttributes;
  getAccountDevice : Api.Fetched IAccountDeviceAttributes;
}.

Section Handlers.

Variable encodeApiEvent : IApiEvent -> Buffer.
(** [recoverAddressFromPersonalMessage] of eth-utils: the address, or
    [null] for a signature it cannot recover one from. *)
Variable recoverAddressFromPersonalMessage : Buffer -> string -> option string.
Variable buildActionUrl : ILinkerAction -> LinkerActionSenderTypes -> string.

(** Whether [muted$] emits when the flag, holding the first value, is set
    to the second: the affair of the class [ApiConnection], which is not
    among the sources. *)
Variable muted_emits : bool -> bool -> bool.

Definition mute_frame : Buffer :=
  encodeApiEvent {| type := MuteConnection; payload := None |}.

Definition unmute_frame : Buffer :=
  encodeApiEvent {| type := UnMuteConnection; payload := None |}.

(** The state a request [frame] to the relay leaves: the frame sent on an
    opened connection, [errApiInvalidConnectionState] on the Sdk's
    [error$] otherwise. *)
Definition requested (frame : Buffer) (s : t) : t :=
  if ApiConnection.opened (Api.connection (api s))
  then with_api (Api.with_connection
                   (ApiConnection.transmitted frame (Api.connection (api s))) (api s)) s
  else emit_error errApiInvalidConnectionState s.

(** The action the handler of a signed secure action emits for a signer
    ([None] for a signer that is [null]). *)
Definition resolved_action (s : t) (signer : option string) : ILinkerAction :=
  {| action_type := CreateAccountDevice;
     action_payload := ICreateAccountDevice (network_version s) signer None;
     sender := Some {| sender_type := Device; sender_data := signer |} |}.

(** Whether the outstanding challenge asks for a new account device and
    the reported signer is [===] to what recovery from the signature over
    its nonce returns. *)
Definition resolves (s : t) (signer : Nullable) (signature : string) : bool :=
  match secureAction s with
  | Some challenge =>
      bool_decide (signer = returned (recoverAddressFromPersonalMessage
                                        (secure_hash challenge) signature))
      && bool_decide (secure_type challenge = CreateAccountDevice)
  | None => false
  end.


Definition muteApiConnection : M t unit :=
  try_catch (on_api (Api.muteConnection encodeApiEvent))
            (fun err => modify (emit_error err)).

Definition unMuteApiConnection : M t unit :=
  try_catch (on_api (Api.unMuteConnection encodeApiEvent))
            (fun err => modify (emit_error err)).

Definition createSecureActionUrl (type : LinkerActionsTypes) (entropy : nat -> Byte.byte)
  : M t string :=
  unMuteApiConnection ;;;
  let hash := randomBytes 16 entropy in
  modify (with_secureAction (Some {| secure_type := type; secure_hash := hash |})) ;;;
  s <- get ;;
  ret (buildActionUrl
         {| action_type := Secure;
            action_payload := ISecure (network_version s) hash;
            sender := None |}
         Device).

Definition destroySecureAction : M t unit := muteApiConnection.

(** The subscriber of [api.connection.muted$], behind [filter((muted) => muted)]. *)
Definition on_muted (muted : bool) : M t unit :=
  if muted then modify (with_secureAction None) else ret tt.

(** [this.api.connection.muted = b], and what [muted$] then delivers. *)
Definition set_connection_muted (b : bool) : M t unit :=
  s <- get ;;
  let old := ApiConnection.muted (Api.connection (api s)) in
  modify (with_api (Api.with_connection
                      (ApiConnection.set_muted b (Api.connection (api s))) (api s))) ;;;
  if muted_emits old b then on_muted b else ret tt.

(** [api.getAccount] and [api.getAccountDevice]: one [call] each. *)
Definition api_getAccount (env : Env) : M t (option IAccountAttributes) :=
  on_api (Api.call (getAccount env)).

Definition api_getAccountDevice (env : Env) : M t (option IAccountDeviceAttributes) :=
  on_api (Api.call (getAccountDevice env)).

(** The member [ensName] of a payload read as [IAccount]. *)
Definition payload_ensName (p : Payload) : option string :=
  match p with
  | IAccount e => Some e
  | _ => None
  end.

(** The members [signer] and [signature] of a payload read as
    [ISignedSecureAction]. *)
Definition payload_signer (p : Payload) : Nullable :=
  match p with
  | ISignedSecureAction signer _ _ => signer
  | _ => Absent
  end.

Definition payload_signature (p : Payload) : option string :=
  match p with
  | ISignedSecureAction _ _ signature => Some signature
  | _ => None
  end.

(** [const { ... } = payload]: throws when there is no payload. *)
Definition destructure (payload : option Payload) : M t Payload :=
  match payload with
  | Some p => ret p
  | None => throw TypeError
  end.

(** The case [AccountUpdated]. *)
Definition on_AccountUpdated (env : Env) (payload : option Payload) : M t unit :=
  p <- destructure payload ;;
  s <- get ;;
  if bool_decide (account_ensName s = payload_ensName p)
  then
    accountAttributes <- api_getAccount env ;;
    accountDeviceAttributes <- api_getAccountDevice env ;;
    match accountAttributes, accountDeviceAttributes with
    | Some a, Some d =>
        modify (with_account (Some a)) ;;;
        modify (with_accountDevice (Some d))
    | _, _ => ret tt
    end
  else ret tt.

(** The body of the [try] of the case [SignedSecureAction]; each [return]
    is the end of a branch. *)
Definition resolve (payload : option Payload) : M t unit :=
  p <- destructure payload ;;
  let signer := payload_signer p in
  let signature := payload_signature p in
  s <- get ;;
  match secureAction s with
  | None => ret tt
  | Some challenge =>
      let type := secure_type challenge in
      let hash := secure_hash challenge in
      if negb (bool_decide
                 (signer = returned (recoverAddressFromPersonalMessage hash
                                       (default "" signature))))
      then ret tt
      else
        match type with
        | CreateAccountDevice =>
            modify (next_incomingAction
                      {| action_type := type;
                         action_payload :=
                           ICreateAccountDevice (network_version s) (given signer) None;
                         sender := Some {| sender_type := Device;
                                           sender_data := given signer |} |})
        | _ => ret tt
        end
  end.

(** The case [SignedSecureAction]. *)
Definition on_SignedSecureAction (payload : option Payload) : M t unit :=
  try_finally (resolve payload) destroySecureAction.

(** The subscriber of [api.event$]. *)
Definition on_event (env : Env) (event : IApiEvent) : M t (option unit) :=
  wrapTAsync
    match type event with
    | ConnectionMuted => set_connection_muted true
    | ConnectionUnMuted => set_connection_muted false
    | AccountUpdated => on_AccountUpdated env (payload event)
    | AccountDeviceAdded
    | AccountDeviceUpdated
    | AccountDeviceRemoved => p <- destructure (payload event) ;; ret tt
    | SignedSecureAction => on_SignedSecureAction (payload event)
    | MuteConnection
    | UnMuteConnection => ret tt
    end.

End Handlers.

Section Accounts.

(** [ILinkerActionUrls] and [linker.buildActionUrls] of the linker, which
    is not among the sources, and its [appName]. *)
Variable ILinkerActionUrls : Type.
Variable buildActionUrls : ILinkerAction -> ILinkerActionUrls.
Variable appName : option string.



Definition resetAccount : M t unit :=
  modify (with_account None) ;;;
  modify (with_accountDevice None).

End Accounts.

Section Linker.

Variable encodeApiEvent : IApiEvent -> Buffer.
Variable anyToHex : Buffer -> string.

(** The event the accepting device sends for a signature. *)
Definition signed_event (recipient : option string) (signature : Buffer) : IApiEvent :=
  {| type := SignedSecureAction;
     payload := Some (ISignedSecureAction Absent recipient (anyToHex signature)) |}.

(** The member [hash] of a payload read as [ISecure]. *)
Definition payload_hash (p : LinkerActionPayload) : option Buffer :=
  match p with
  | ISecure _ hash => Some hash
  | _ => None
  end.

(** The subscriber of [linker.acceptedAction$] in [configureLinker],
    behind [filter((action) => !!action)]; [signPersonalMessage] is the
    device's signing of what it is handed. *)
Definition on_acceptedAction (signPersonalMessage : option Buffer -> Res Buffer)
    (action : option ILinkerAction) : M t (option unit) :=
  match action with
  | None => ret None
  | Some a =>
      wrapTAsync
        match action_type a with
        | CreateAccountDevice => ret tt
        | AccountDeviceCreated => ret tt
        | Secure =>
            match sender a with
            | None => throw TypeError
            | Some sd =>
                match sender_type sd with
                | Device =>
                    match signPersonalMessage (payload_hash (action_payload a)) with
                    | Ok signature =>
                        on_api (Api.signSecureAction encodeApiEvent anyToHex
                                  (sender_data sd) signature)
                    | Throw e => throw e
                    end
                | OtherSender _ => ret tt
                end
            end
        end
  end.

End Linker.

(** The object as the constructor leaves it. *)
Definition create : t :=
  {| api := Api.create;
     secureAction := None;
     account := None;
     accountDevice := None;
     network_version := None;
     errors := [];
     incomingAction := [] |}.

End Sdk.

(** ** The event codec *)

Module EventCodec.

Import ApiEvents.

(** Modelled from the spec: the typed events that [encodeApiEvent] and
    [decodeApiEvent] of [src/api/events], which are not among the sources,
    carry (sections 3, 4.3 and 6): a kind without payload, a kind with a
    scalar (the name of an account), and kinds with structured payloads
    whose addresses and signatures are byte sequences of fixed width. *)
Inductive Event : Type :=
| Signal (kind : Types)
| Account (ensName : string)
| AccountDevice (kind : Types) (account : string) (address : Buffer)
| Signed (signer : Buffer) (signature : Buffer).

(** Modelled from the spec: the widths of an address and of a signature
    (a recoverable personal-message signature: r, s and v). *)
Definition address_width : nat := 20.
Definition signature_width : nat := 65.

(** Modelled from the spec: the events of the fixed event-kind set, each
    kind with the payload that belongs to it and every fixed-width member
    of its width. *)
Definition well_formed (e : Event) : Prop :=
  match e with
  | Signal kind =>
      kind = ConnectionMuted \/ kind = ConnectionUnMuted \/
      kind = MuteConnection \/ kind = UnMuteConnection
  | Account _ => True
  | AccountDevice kind _ address =>
      (kind = AccountDeviceAdded \/ kind = AccountDeviceUpdated \/
       kind = AccountDeviceRemoved) /\ length address = address_width
  | Signed signer signature =>
      length signer = address_width /\ length signature = signature_width
  end.

(** Modelled from the spec: what [decodeApiEvent] yields; a frame that is
    unknown or malformed decodes to [Unrecognized] and nothing is thrown. *)
Inductive Decoded : Type :=
| Recognized (e : Event)
| Unrecognized.

(** Modelled from the spec: the tag of the envelope's [type]. *)
Definition encode_type (k : Types) : Byte.byte :=
  match k with
  | ConnectionMuted => Byte.x01
  | ConnectionUnMuted => Byte.x02
  | MuteConnection => Byte.x03
  | UnMuteConnection => Byte.x04
  | AccountUpdated => Byte.x05
  | AccountDeviceAdded => Byte.x06
  | AccountDeviceUpdated => Byte.x07
  | AccountDeviceRemoved => Byte.x08
  | SignedSecureAction => Byte.x09
  end.

Definition decode_type (b : Byte.byte) : option Types :=
  match b with
  | Byte.x01 => Some ConnectionMuted
  | Byte.x02 => Some ConnectionUnMuted
  | Byte.x03 => Some MuteConnection
  | Byte.x04 => Some UnMuteConnection
  | Byte.x05 => Some AccountUpdated
  | Byte.x06 => Some AccountDeviceAdded
  | Byte.x07 => Some AccountDeviceUpdated
  | Byte.x08 => Some AccountDeviceRemoved
  | Byte.x09 => Some SignedSecureAction
  | _ => None
  end.

(** Modelled from the spec: [encodeApiEvent], the envelope [{type,
    payload}] as a frame: the tag, then the members of fixed width, then
    the text. *)
Definition encode (e : Event) : Buffer :=
  match e with
  | Signal kind => [encode_type kind]
  | Account ensName => encode_type AccountUpdated :: list_byte_of_string ensName
  | AccountDevice kind account address =>
      encode_type kind :: address ++ list_byte_of_string account
  | Signed signer signature =>
      encode_type SignedSecureAction :: signer ++ signature
  end.

(** Modelled from the spec: [decodeApiEvent]. *)
Definition decode (frame : Buffer) : Decoded :=
  match frame with
  | [] => Unrecognized
  | tag :: body =>
      match decode_type tag with
      | None => Unrecognized
      | Some AccountUpdated => Recognized (Account (string_of_list_byte body))
      | Some SignedSecureAction =>
          if Nat.eqb (length body) (address_width + signature_width)
          then Recognized (Signed (take address_width body) (drop address_width body))
          else Unrecognized
      | Some ((AccountDeviceAdded | AccountDeviceUpdated | AccountDeviceRemoved) as kind) =>
          if Nat.leb address_width (length body)
          then Recognized (AccountDevice kind
                             (string_of_list_byte (drop address_width body))
                             (take address_width body))
          else Unrecognized
      | Some kind =>
          match body with
          | [] => Recognized (Signal kind)
          | _ :: _ => Unrecognized
          end
      end
  end.

End EventCodec.

(** ** ENS names *)

Module Ens.

Import Stdlib.Strings.Ascii.

Definition SEPARATOR : Ascii.ascii := "."%char.

(** [s.split(SEPARATOR)]: never empty; a string without the separator is
    its own single part. *)
Fixpoint split (s : string) : list string :=
  match s with
  | EmptyString => [EmptyString]
  | String c rest =>
      if Ascii.eqb c SEPARATOR
      then EmptyString :: split rest
      else match split rest with
           | head :: tail => String c head :: tail
           | [] => [String c EmptyString]
           end
  end.

(** [parts.join(SEPARATOR)]. *)
Fixpoint join (parts : list string) : string :=
  match parts with
  | [] => EmptyString
  | p :: rest =>
      match rest with
      | [] => p
      | _ :: _ => p ++ String SEPARATOR (join rest)
      end
  end.

(** Truthiness of a string. *)
Definition nonempty (s : string) : bool := negb (String.eqb s "").

(** A string without the separator. *)
Fixpoint separator_free (s : string) : bool :=
  match s with
  | EmptyString => true
  | String c rest => negb (Ascii.eqb c SEPARATOR) && separator_free rest
  end.

(** How a call into a library ends. *)
Inductive Outcome (A : Type) : Type :=
| Returned (a : A)
| Thrown.

Arguments Returned {A} a.
Arguments Thrown {A}.

Section Normalize.

(** [toAscii(name, { transitional: true, useStd3ASCII: true })] of
    idna-uts46-hx. *)
Variable toAscii : string -> Outcome string.

(** [normalize]: the filtered and joined name is computed and dropped. *)
Definition normalize (name : string) : Outcome (option string) :=
  match toAscii name with
  | Thrown => Thrown
  | Returned name' =>
      let _ := if nonempty name'
               then join (filter (fun value => nonempty value = true) (split name'))
               else EmptyString in
      Returned (if nonempty name' then Some name' else None)
  end.

Definition prepareEnsName (parts : list string) : Outcome (option string) :=
  normalize (join parts).

End Normalize.

Record SplitName : Type := {
  label : option string;
  rootNodeName : option string;
}.

Definition splitEnsName (name : option string) : SplitName :=
  match name with
  | Some n =>
      if nonempty n
      then
        let parts := split n in
        if Nat.ltb 1 (length parts)
        then {| label := head parts; rootNodeName := Some (join (tail parts)) |}
        else {| label := None; rootNodeName := None |}
      else {| label := None; rootNodeName := None |}
  | None => {| label := None; rootNodeName := None |}
  end.

(** An argument of [sha3]: text or bytes. *)
Inductive Data : Type :=
| Text (s : string)
| Bytes (b : Buffer).

Section Hash.

(** [sha3] and [anyToHex(_, { add0x: true })] of [../shared], which is not
    among the sources. *)
Variable sha3 : list Data -> Buffer.
Variable anyToHex : Buffer -> string.

(** The value of [node] when the loop of [getEnsNameHash] ends. *)
Definition ensNode (name : string) : Buffer :=
  let parts := rev (map (fun part => sha3 [Text part]) (split name)) in
  fold_left (fun node part => sha3 [Bytes node; Bytes part]) parts
    (repeat Byte.x00 32).

Definition getEnsNameHash (name : option string) : option string :=
  match name with
  | Some n => if nonempty n then Some (anyToHex (ensNode n)) else None
  | None => None
  end.

Definition getEnsLabelHash (label : option string) : option string :=
  match label with
  | Some l => if nonempty l then Some (anyToHex (sha3 [Text l])) else None
  | None => None
  end.

End Hash.

End Ens.

(** ** Runs of the Api *)

Module Run.

Import Api.

(** The calls that reach the [Api] from outside or from its own
    subscriptions and timers; [Session] is a transition of the session on
    its own, as between the suspension points of a [createSession] that is
    under way. *)
Inductive Op : Type :=
| OpenConnection (ok : bool)
| CloseConnection
| CreateSession (env : Env)
| DestroySession
| Emit (env : Env) (e : Emission)
| Tick (ok : bool) (id : positive)
| SendEvent (event : ApiEvents.IApiEvent)
| Session (tr : ApiSession.Transition).

Section Exec.

Variable encodeApiEvent : ApiEvents.IApiEvent -> Buffer.

Definition exec (op : Op) : M t unit :=
  match op with
  | OpenConnection ok => openConnection ok
  | CloseConnection => closeConnection
  | CreateSession env => createSession env
  | DestroySession => destroySession
  | Emit env e => emit env e
  | Tick ok id => tick ok id
  | SendEvent event => sendEvent encodeApiEvent event
  | Session tr => modify (with_session (ApiSession.apply tr))
  end.

(** The state a call leaves behind, whether it returned or threw. *)
Definition step (s : t) (op : Op) : t := snd (exec op s).

Definition run (ops : list Op) (s : t) : t := fold_left step ops s.

(** What is asked of an outbound call, given with the event it carries:
    it throws and leaves the state alone unless the connection is [Opened],
    and then it sends the frame of the event. *)
Definition guarded_by_state (s : t) (call : M t unit * ApiEvents.IApiEvent) : Prop :=
  (ApiConnection.state (connection s) <> ApiConnection.Opened ->
   fst call s = (Throw errApiInvalidConnectionState, s))
  /\ (ApiConnection.state (connection s) = ApiConnection.Opened ->
      fst call s
      = (Ok tt, with_connection
                  (ApiConnection.transmitted (encodeApiEvent (snd call)) (connection s)) s)).

End Exec.

(** The state [openConnection] leaves when it arms a new interval. *)
Definition armed (ok : bool) (s : t) : t :=
  with_reconnectInterval (Some (Timers.next (timers s)))
    (with_timers (snd (Timers.setInterval (timers s))) (open ok s)).

(** Every armed interval is the one [reconnectInterval] holds, and the
    handle it holds was given out before. *)
Definition timer_inv (s : t) : Prop :=
  (forall id, id ∈ Timers.active (timers s) -> reconnectInterval s = Some id)
  /\ (forall id, reconnectInterval s = Some id -> (id < Timers.next (timers s))%positive).

(** A fetch that yields no data: the request threw, the body was not JSON
    or was [null], or the body had no [data]. *)
Definition no_data {D} (r : Fetched D) : Prop :=
  r = NetworkError \/ r = Malformed \/ r = NullBody \/ r = Body None.

(** The hash fetch, the signing or the verification of a run of
    [createSession] from [s] fails. *)
Definition exchange_fails (env : Env) (s : t) : Prop :=
  truthy (http (endpoints s)) = false
  \/ no_data (post_session env)
  \/ exists hash,
      post_session env = Body (Some hash)
      /\ ((exists e, signPersonalMessage env hash = Throw e)
          \/ exists signature,
              signPersonalMessage env hash = Ok signature
              /\ no_data (put_session env hash (device_address s) signature)).

(** The state in which the subscriber of an emission evaluates [canAuth]:
    the emitted value is the current one. *)
Definition received (e : Emission) (s : t) : t :=
  match e with
  | OptionsChanged o => snd (on_options (with_options o s))
  | AddressChanged a => with_device_address a s
  end.

(** The exchange of a run of [createSession] from [s] goes through, and
    the [data] of the verification has [token] for its member [token]
    ([None] when it has none). *)
Definition exchange_yields (env : Env) (s : t) (token : option string) : Prop :=
  truthy (http (endpoints s)) = true
  /\ exists hash signature,
      post_session env = Body (Some hash)
      /\ signPersonalMessage env hash = Ok signature
      /\ put_session env hash (device_address s) signature = Body (Some token).

(** The exchange of a run of [createSession] from [s] goes through and
    yields [token]. *)
Definition exchange_succeeds (env : Env) (s : t) (token : string) : Prop :=
  exchange_yields env s (Some token).

(** The endpoints are the ones built from the current options. *)
Definition endpoints_inv (s : t) : Prop :=
  endpoints s = {| http := buildEndpoint http_ (options s);
                   ws := buildEndpoint ws_ (options s) |}.

(** The parts of the state that only an emission writes. *)
Definition same_config (s s' : t) : Prop :=
  options s' = options s /\ endpoints s' = endpoints s
  /\ device_address s' = device_address s.

(** A call of the [Api]; a transition of the session on its own is one the
    [Api] makes, with [setAsVerifying] at its default argument. *)
Definition api_call (op : Op) : Prop :=
  match op with
  | Session tr => ApiSession.default_arguments tr
  | _ => True
  end.

End Run.

(** ** A concrete device, backend and configuration *)
Module Scenario.

Import Api.

Definition options : IApiOptions :=
  {| host := Some "api.blockid.test"; port := Some 3000; ssl := false;
     manualAuth := false; reconnectTimeout := Some 5000 |}.

Definition hash : Buffer := [Byte.x01; Byte.x02; Byte.x03].

(** A backend that answers, a device that signs, a channel that opens. *)
Definition backend_up : Env :=
  {| post_session := Body (Some (Some hash));
     signPersonalMessage := fun h => Ok (default [] h ++ [Byte.x1b])%list;
     put_session := fun _ _ _ => Body (Some (Some "token-1"));
     connects := true |}.

(** The same, with a transport error on the verify step. *)
Definition verify_unreachable : Env :=
  {| post_session := Body (Some (Some hash));
     signPersonalMessage := fun h => Ok (default [] h ++ [Byte.x1b])%list;
     put_session := fun _ _ _ => NetworkError;
     connects := true |}.

(** The same, with a verification whose [data] has no [token]. *)
Definition verify_without_token : Env :=
  {| post_session := Body (Some (Some hash));
     signPersonalMessage := fun h => Ok (default [] h ++ [Byte.x1b])%list;
     put_session := fun _ _ _ => Body (Some None);
     connects := true |}.

(** An [Api] whose device has an address and that has no options yet. *)
Definition with_device : t := with_device_address (Some "0xA1") create.

(** The [Api] once the options arrived: verified session, opened channel. *)
Definition online : t :=
  snd (emit backend_up (OptionsChanged (Some options)) with_device).

(** A stand-in for the signature scheme: the signature names its signer
    and the hash it is over, and recovery over another hash yields
    [null]. *)
Definition sign (address : string) (hash : Buffer) : string :=
  address ++ "/" ++ string_of_list_byte hash.

Definition recover (hash : Buffer) (signature : string) : option string :=
  let tail := "/" ++ string_of_list_byte hash in
  let n := String.length signature - String.length tail in
  if String.eqb (substring n (String.length tail) signature) tail
  then Some (substring 0 n signature)
  else None.

(** Stand-ins for the codec, the linker's URL and the emission of
    [muted$]. *)
Definition frame_of (event : ApiEvents.IApiEvent) : Buffer :=
  [EventCodec.encode_type (ApiEvents.type event)].

Definition url_of (action : Sdk.ILinkerAction) (senderType : Sdk.LinkerActionSenderTypes)
  : string := "blockid://secure".

Definition on_change (old new : bool) : bool := negb (Bool.eqb old new).

(** Two sources of random bytes. *)
Definition entropy1 (i : nat) : Byte.byte := Byte.x11.
Definition entropy2 (i : nat) : Byte.byte := Byte.x22.

(** The [Sdk] around [online], and around an [Api] that is not connected. *)
Definition sdk_online : Sdk.t := Sdk.with_api online Sdk.create.
Definition sdk_offline : Sdk.t := Sdk.create.

(** [sdk_online] with a challenge for a new account device outstanding. *)
Definition challenged : Sdk.t :=
  snd (Sdk.createSecureActionUrl frame_of url_of Sdk.CreateAccountDevice entropy1
         sdk_online).

(** The relay's event for a signature of ["0xB2"] over the first nonce. *)
Definition signed_by_B2 : ApiEvents.IApiEvent :=
  {| ApiEvents.type := ApiEvents.SignedSecureAction;
     ApiEvents.payload :=
       Some (ApiEvents.ISignedSecureAction (ApiEvents.Given "0xB2") None
               (sign "0xB2" (Sdk.randomBytes 16 entropy1))) |}.

(** The relay's event for a [null] signer and a signature that no
    address is recovered from. *)
Definition signed_by_null : ApiEvents.IApiEvent :=
  {| ApiEvents.type := ApiEvents.SignedSecureAction;
     ApiEvents.payload :=
       Some (ApiEvents.ISignedSecureAction ApiEvents.Null None "unsigned") |}.

Definition no_backend : Sdk.Env :=
  {| Sdk.getAccount := NetworkError; Sdk.getAccountDevice := NetworkError |}.

(** Stand-ins for [toAscii], for [sha3] and for the hex of a buffer. *)
Definition ascii_only (name : string) : Ens.Outcome string := Ens.Returned name.

Definition hex_of (b : Buffer) : string := string_of_list_byte b.

Definition digest (args : list Ens.Data) : Buffer :=
  flat_map (fun d => match d with
                     | Ens.Text t => list_byte_of_string t
                     | Ens.Bytes b => b
                     end) args.

(** The device ["0xB2"] signing what it is handed. *)
Definition signs_as_B2 (hash : option Buffer) : Res Buffer :=
  match hash with
  | Some h => Ok (list_byte_of_string (sign "0xB2" h))
  | None => Throw SignerError
  end.

(** The tracked account and what the backend knows of it. *)
Definition alice : Sdk.IAccountAttributes :=
  {| Sdk.ensName := Some "alice.blockid.test";
     Sdk.account_members := [("state", "deployed")] |}.

Definition knows_alice_only : Sdk.Env :=
  {| Sdk.getAccount := Body (Some alice); Sdk.getAccountDevice := Body None |}.

End Scenario.


(** * Properties *)

(** ** The session *)

Section SessionProperties.

Import ApiSession.

Lemma run_app (trs1 trs2 : list Transition) (s : t) :
  run (trs1 ++ trs2) s = run trs2 (run trs1 s).
Proof. unfold run. apply fold_left_app. Qed.

Lemma apply_default_invariant (tr : Transition) (s : t) :
  default_arguments tr -> invariant (apply tr s).
Proof.
  destruct tr as [tok | tok | ]; simpl; intros Hd; unfold invariant; simpl.
  - subst tok. intros H. now contradiction H.
  - reflexivity.
  - intros H. now contradiction H.
Qed.

Lemma create_invariant : invariant create.
Proof. unfold invariant; simpl. intros H. now contradiction H. Qed.

(** C1, as stated, fails: [setAsVerifying] stores the token it is given,
    so a call with a token leaves a session that is [Verifying] and has a
    token. *)
Lemma setAsVerifying_keeps_given_token :
  let s := run [SetAsVerifying (Some "stale")] create in
  state (attributes s) = Verifying
  /\ token (attributes s) = Some "stale"
  /\ ~ invariant s.
Proof.
  simpl. repeat split.
  unfold invariant; simpl. intros H.
  assert (Hv : Verifying = Verified) by (apply H; discriminate).
  discriminate Hv.
Qed.

(** C1, amended: for every sequence of calls to [setAsVerifying],
    [setAsVerified] and [setAsDestroyed] in which [setAsVerifying] is called
    with its default (null) token, the state after the sequence (hence
    every reachable state) satisfies [token != null => state == Verified];
    [setAsVerifying] moves to [Verifying] and stores the token it is given
    (null by default), and [setAsDestroyed] moves to [Destroyed] with a
    null token. *)
Theorem session_invariant_with_default_verifying (trs : list Transition) :
  Forall default_arguments trs ->
  invariant (run trs create)
  /\ (forall tok s, attributes (setAsVerifying tok s)
                    = {| state := Verifying; token := tok |})
  /\ (forall s, attributes (setAsDestroyed s)
                = {| state := Destroyed; token := None |}).
Proof.
  intros Hall. split; [ | split; reflexivity ].
  induction trs as [ | tr trs IH ] using rev_ind.
  - apply create_invariant.
  - rewrite run_app. simpl.
    apply apply_default_invariant.
    apply Forall_app in Hall. destruct Hall as [_ Hlast].
    now inversion Hlast.
Qed.

Lemma session_invariant_with_default_verifying_witness :
  invariant (run [SetAsVerifying None; SetAsVerified (Some "t"); SetAsDestroyed;
                  SetAsVerifying None] create).
Proof.
  apply (session_invariant_with_default_verifying
           [SetAsVerifying None; SetAsVerified (Some "t"); SetAsDestroyed;
            SetAsVerifying None]).
  repeat constructor.
Defined.

End SessionProperties.

(** ** Outbound events *)

Section OutboundProperties.

Import ApiEvents Api.

Variable encodeApiEvent : IApiEvent -> Buffer.
Variable anyToHex : Buffer -> string.

Lemma opened_true (c : ApiConnection.t) :
  ApiConnection.opened c = true <-> ApiConnection.state c = ApiConnection.Opened.
Proof. unfold ApiConnection.opened. apply bool_decide_eq_true. Qed.

Lemma opened_false (c : ApiConnection.t) :
  ApiConnection.opened c = false <-> ApiConnection.state c <> ApiConnection.Opened.
Proof. unfold ApiConnection.opened. apply bool_decide_eq_false. Qed.

Lemma sendEvent_closed (event : IApiEvent) (s : t) :
  ApiConnection.opened (connection s) = false ->
  sendEvent encodeApiEvent event s = (Throw errApiInvalidConnectionState, s).
Proof.
  intros H. unfold sendEvent, bind, get. rewrite H. reflexivity.
Qed.

Lemma sendEvent_opened (event : IApiEvent) (s : t) :
  ApiConnection.opened (connection s) = true ->
  sendEvent encodeApiEvent event s
  = (Ok tt, with_connection
              (ApiConnection.transmitted (encodeApiEvent event) (connection s)) s).
Proof.
  intros H. unfold sendEvent, bind, get, zoom, ApiConnection.send.
  rewrite H. simpl. rewrite H. reflexivity.
Qed.

(** C8: [sendEvent], and with it [muteConnection], [unMuteConnection] and
    [signSecureAction], throws [errApiInvalidConnectionState] and leaves
    the whole state (the channel included) as it was when the connection is
    not [Opened]; when it is [Opened] the call returns and the encoded
    frame of the event is the one more frame sent on the connection. *)
Theorem outbound_event_requires_opened
    (event : IApiEvent) (recipient : option string) (signature : Buffer) (s : t) :
  Forall (Run.guarded_by_state encodeApiEvent s)
    [ (sendEvent encodeApiEvent event, event);
      (muteConnection encodeApiEvent, {| type := MuteConnection; payload := None |});
      (unMuteConnection encodeApiEvent, {| type := UnMuteConnection; payload := None |});
      (signSecureAction encodeApiEvent anyToHex recipient signature,
       {| type := SignedSecureAction;
          payload := Some (ISignedSecureAction Absent recipient (anyToHex signature)) |}) ].
Proof.
  repeat constructor; simpl; intros H;
    solve [ apply sendEvent_closed; now apply opened_false
          | apply sendEvent_opened; now apply opened_true ].
Qed.

End OutboundProperties.

(** [sendEvent] on a closed connection, at a concrete state. *)
Lemma outbound_event_requires_opened_witness :
  Api.sendEvent (fun _ => []) {| ApiEvents.type := ApiEvents.MuteConnection;
                                 ApiEvents.payload := None |} Api.create
  = (Throw errApiInvalidConnectionState, Api.create).
Proof.
  pose proof (outbound_event_requires_opened (fun _ => []) (fun _ => "0x")
                {| ApiEvents.type := ApiEvents.MuteConnection;
                   ApiEvents.payload := None |} None [] Api.create) as H.
  apply Forall_cons in H. destruct H as [[Hclosed _] _].
  apply Hclosed. simpl. discriminate.
Defined.

(** ** The reconnect timer *)

Section TimerProperties.

Import Api Run.

Variable encodeApiEvent : ApiEvents.IApiEvent -> Buffer.

Lemma create_timer_inv : timer_inv create.
Proof.
  split; simpl.
  - intros id H. set_solver.
  - intros id H. discriminate.
Qed.

(** Clearing the stored handle leaves no interval armed. *)
Lemma clearReconnectInterval_spec (s : t) :
  timer_inv s ->
  exists tm,
    clearReconnectInterval s = (Ok tt, with_timers tm s)
    /\ Timers.active tm = ∅
    /\ Timers.next tm = Timers.next (timers s).
Proof.
  intros [Hact Hnext]. unfold clearReconnectInterval, bind, get, modify.
  destruct (reconnectInterval s) as [id | ] eqn:Hh.
  - exists (Timers.clearInterval id (timers s)). repeat split.
    simpl. apply set_eq. intros x. split; [ | set_solver ].
    intros Hx. apply elem_of_difference in Hx. destruct Hx as [Hin Hne].
    apply Hact in Hin. injection Hin as ->. set_solver.
  - exists (timers s). repeat split.
    + destruct s; reflexivity.
    + apply set_eq. intros x. split; [ | set_solver ].
      intros Hx. apply Hact in Hx. discriminate.
Qed.

Lemma openConnection_cases (ok : bool) (s : t) :
  timer_inv s ->
  exists tm,
    Timers.active tm = ∅ /\ Timers.next tm = Timers.next (timers s)
    /\ openConnection ok s
       = if negb (truthy (ws (endpoints s)))
         then (Throw errApiUnknownWsEndpoint, with_timers tm s)
         else if negb (ApiSession.verified (session s))
         then (Ok tt, with_timers tm s)
         else match options s with
              | None => (Throw TypeError, with_timers tm s)
              | Some o =>
                  if nonzero (reconnectTimeout o)
                  then (Ok tt, armed ok (with_timers tm s))
                  else (Ok tt, open ok (with_timers tm s))
              end.
Proof.
  intros Hinv. destruct (clearReconnectInterval_spec s Hinv) as (tm & Hclear & Hact & Hnext).
  exists tm. split; [ exact Hact | split; [ exact Hnext | ] ].
  unfold openConnection, bind at 1. rewrite Hclear.
  unfold bind, get, modify, throw, ret. simpl.
  destruct (truthy (ws (endpoints s))); simpl; [ | reflexivity ].
  destruct (ApiSession.verified (session s)); simpl; [ | reflexivity ].
  destruct (options s) as [o | ]; [ | reflexivity ].
  destruct (nonzero (reconnectTimeout o)); reflexivity.
Qed.

Lemma timer_inv_ext (s s' : t) :
  timers s' = timers s -> reconnectInterval s' = reconnectInterval s ->
  timer_inv s -> timer_inv s'.
Proof. unfold timer_inv. intros -> ->. exact (fun H => H). Qed.

Lemma timer_inv_cleared (tm : Timers.t) (s : t) :
  Timers.active tm = ∅ -> Timers.next tm = Timers.next (timers s) ->
  timer_inv s -> timer_inv (with_timers tm s).
Proof.
  intros Hact Hnext [_ Hfresh]. split; simpl.
  - intros id Hin. rewrite Hact in Hin. set_solver.
  - intros id Hid. rewrite Hnext. now apply Hfresh.
Qed.

Lemma armed_active (ok : bool) (s : t) :
  Timers.active (timers s) = ∅ ->
  Timers.active (timers (armed ok s)) = {[ Timers.next (timers s) ]}.
Proof. intros Hact. simpl. rewrite Hact. apply union_empty_r_L. Qed.

Lemma timer_inv_armed (ok : bool) (s : t) :
  Timers.active (timers s) = ∅ -> timer_inv (armed ok s).
Proof.
  intros Hact. split.
  - intros id Hin. rewrite (armed_active ok s Hact) in Hin.
    apply elem_of_singleton in Hin. subst id. reflexivity.
  - simpl. intros id Hid. injection Hid as Hid. subst id. lia.
Qed.

Lemma openConnection_timer_inv (ok : bool) (s : t) :
  timer_inv s -> timer_inv (snd (openConnection ok s)).
Proof.
  intros Hinv.
  destruct (openConnection_cases ok s Hinv) as (tm & Hact & Hnext & ->).
  pose proof (timer_inv_cleared tm s Hact Hnext Hinv) as Hc.
  destruct (truthy (ws (endpoints s))); simpl; [ | exact Hc ].
  destruct (ApiSession.verified (session s)); simpl; [ | exact Hc ].
  destruct (options s) as [o | ]; [ | exact Hc ].
  destruct (nonzero (reconnectTimeout o)); simpl.
  - now apply timer_inv_armed.
  - exact Hc.
Qed.

Lemma closeConnection_active (s : t) :
  timer_inv s ->
  Timers.active (timers (snd (closeConnection s))) = ∅
  /\ timer_inv (snd (closeConnection s)).
Proof.
  intros Hinv.
  destruct (clearReconnectInterval_spec s Hinv) as (tm & Hclear & Hact & Hnext).
  unfold closeConnection, bind. rewrite Hclear. simpl. split; [ exact Hact | ].
  apply (timer_inv_ext (with_timers tm s)); [ reflexivity | reflexivity | ].
  now apply timer_inv_cleared.
Qed.

(** The exchange of [createSession] writes the session and nothing else:
    [Verifying] first, then [Verified] with the token, or [Destroyed] when a
    step fails. *)
Lemma createSession_exchange (env : Env) (s : t) :
  exists session',
    createSession env s
    = openConnection (connects env) (with_session (fun _ => session') s)
    /\ ApiSession.assigned session'
       = (ApiSession.assigned (session s)
          ++ [ApiSession.Verifying; ApiSession.state (ApiSession.attributes session')])%list
    /\ (exchange_fails env s ->
        ApiSession.attributes session'
        = {| ApiSession.state := ApiSession.Destroyed; ApiSession.token := None |})
    /\ (~ exchange_fails env s ->
        exists token,
          ApiSession.attributes session'
          = {| ApiSession.state := ApiSession.Verified; ApiSession.token := token |}).
Proof.
  unfold createSession. generalize (openConnection (connects env)). intros oc.
  cbv beta iota delta [try_catch bind modify createSessionHash
    verifySessionHash signHash call get throw ret]. simpl.
  assert (Hlog : forall l : list ApiSession.ApiSessionStates,
             forall a b, ((l ++ [a]) ++ [b] = l ++ [a; b])%list)
    by (intros l a b; now rewrite <- app_assoc).
  unfold exchange_fails.
  destruct (truthy (http (endpoints s))) eqn:Hhttp; simpl.
  2: { eexists; split; [ reflexivity | ]. simpl. split; [ apply Hlog | ].
       split; [ reflexivity | ]. intros Hn. exfalso. apply Hn. now left. }
  destruct (post_session env) as [ | | | [hash | ]] eqn:Hpost; simpl.
  1, 2, 3, 5: eexists; (split; [ reflexivity | ]); simpl; (split; [ apply Hlog | ]);
    (split; [ reflexivity | ]); intros Hn; exfalso; apply Hn; right; left;
    unfold no_data; tauto.
  destruct (signPersonalMessage env hash) as [signature | e] eqn:Hsign; simpl.
  2: { eexists; split; [ reflexivity | ]. simpl. split; [ apply Hlog | ].
       split; [ reflexivity | ]. intros Hn. exfalso. apply Hn. right; right.
       exists hash. split; [ reflexivity | ]. left. exists e. exact Hsign. }
  rewrite Hhttp. simpl.
  destruct (put_session env hash (device_address s) signature) as [ | | | [token | ]]
    eqn:Hput; simpl.
  1, 2, 3, 5: eexists; (split; [ reflexivity | ]); simpl; (split; [ apply Hlog | ]);
    (split; [ reflexivity | ]); intros Hn; exfalso; apply Hn; right; right;
    exists hash; (split; [ reflexivity | ]); right; exists signature;
    (split; [ exact Hsign | ]); rewrite Hput; unfold no_data; tauto.
  eexists; split; [ reflexivity | ]. simpl. split; [ apply Hlog | ]. split.
  - intros [Hf | [Hf | (hash' & Hh & Hf)]].
    + discriminate Hf.
    + destruct Hf as [Hf | [Hf | [Hf | Hf]]]; discriminate Hf.
    + injection Hh as <-. destruct Hf as [(e & He) | (sg & Hsg & Hf)].
      * rewrite Hsign in He. discriminate He.
      * rewrite Hsign in Hsg. injection Hsg as <-. rewrite Hput in Hf.
        destruct Hf as [Hf | [Hf | [Hf | Hf]]]; discriminate Hf.
  - intros _. now exists token.
Qed.

Lemma createSession_timer_inv (env : Env) (s : t) :
  timer_inv s -> timer_inv (snd (createSession env s)).
Proof.
  intros Hinv. destruct (createSession_exchange env s) as (session' & -> & _).
  apply openConnection_timer_inv.
  now apply (timer_inv_ext s).
Qed.

Lemma destroySession_timer_inv (s : t) :
  timer_inv s -> timer_inv (snd (destroySession s)).
Proof.
  intros Hinv. unfold destroySession, bind, modify.
  apply closeConnection_active. now apply (timer_inv_ext s).
Qed.

Lemma wrapAsync_state (m : M t unit) (s : t) :
  fst (wrapAsync m s) = Ok tt
  /\ (snd (wrapAsync m s) = snd (m s)
      \/ exists e, fst (m s) = Throw e /\ snd (wrapAsync m s) = emit_error e (snd (m s))).
Proof.
  unfold wrapAsync, try_catch, modify.
  destruct (m s) as [[[] | e] s']; simpl.
  - split; [ reflexivity | now left ].
  - split; [ reflexivity | right; now exists e ].
Qed.

Lemma autoAuth_timer_inv (env : Env) (s : t) :
  timer_inv s -> timer_inv (snd (autoAuth env s)).
Proof.
  intros Hinv. unfold autoAuth, bind, get.
  destruct (canAuth s).
  - destruct (wrapAsync_state (createSession env) s) as [_ [-> | (e & _ & ->)]].
    + now apply createSession_timer_inv.
    + apply (timer_inv_ext (snd (createSession env s))); [ reflexivity .. | ].
      now apply createSession_timer_inv.
  - now apply destroySession_timer_inv.
Qed.

Lemma step_timer_inv (op : Op) (s : t) :
  timer_inv s -> timer_inv (step encodeApiEvent s op).
Proof.
  intros Hinv. unfold step.
  destruct op as [ok | | env | | env e | ok id | event | tr]; simpl.
  - now apply openConnection_timer_inv.
  - now apply closeConnection_active.
  - now apply createSession_timer_inv.
  - now apply destroySession_timer_inv.
  - destruct e as [o | a]; unfold emit, on_options, bind, modify;
      apply autoAuth_timer_inv; apply (timer_inv_ext s); try reflexivity; exact Hinv.
  - unfold tick, bind, get, modify, ret.
    destruct (bool_decide (id ∈ Timers.active (timers s))); [ | exact Hinv ].
    destruct (ApiConnection.state (connection s)); exact Hinv.
  - unfold sendEvent, bind, get, throw, zoom, ApiConnection.send.
    destruct (ApiConnection.opened (connection s)) eqn:Ho; simpl; [ | exact Hinv ].
    rewrite Ho. now apply (timer_inv_ext s).
  - exact Hinv.
Qed.

Lemma run_timer_inv (ops : list Op) (s : t) :
  timer_inv s -> timer_inv (run encodeApiEvent ops s).
Proof.
  revert s. induction ops as [ | op ops IH ]; intros s Hinv; simpl.
  - exact Hinv.
  - apply IH. now apply step_timer_inv.
Qed.

Lemma timer_inv_at_most_one (s : t) :
  timer_inv s -> size (Timers.active (timers s)) <= 1.
Proof.
  intros [Hact _].
  destruct (reconnectInterval s) as [id | ] eqn:Hh.
  - transitivity (size ({[ id ]} : gset positive)).
    + apply subseteq_size. intros x Hx. apply Hact in Hx.
      injection Hx as ->. now apply elem_of_singleton.
    + now rewrite size_singleton.
  - assert (He : Timers.active (timers s) = ∅).
    { apply set_eq. intros x. split; [ | intros Hx; now apply not_elem_of_empty in Hx ].
      intros Hx. apply Hact in Hx. discriminate Hx. }
    rewrite He, size_empty. lia.
Qed.

(** C7: in every state the [Api] reaches by any sequence of calls, at most
    one interval is armed.  A [closeConnection] leaves none armed.  An
    [openConnection] cancels the interval that was armed before it does
    anything else, so that none is armed when it throws or returns early,
    and at most one after it.  And with an endpoint, a verified session and
    a reconnect timeout, two [openConnection] in succession leave exactly
    one. *)
Theorem reconnect_timer_unique (ops : list Op) (ok1 ok2 : bool) (o : IApiOptions) :
  let s := run encodeApiEvent ops create in
  size (Timers.active (timers s)) <= 1
  /\ Timers.active (timers (snd (closeConnection s))) = ∅
  /\ (forall id, reconnectInterval s = Some id ->
      id ∉ Timers.active (timers (snd (openConnection ok1 s))))
  /\ size (Timers.active (timers (snd (openConnection ok1 s)))) <= 1
  /\ ((ApiSession.verified (session s) = false \/ fst (openConnection ok1 s) <> Ok tt) ->
      Timers.active (timers (snd (openConnection ok1 s))) = ∅)
  /\ (truthy (ws (endpoints s)) = true ->
      ApiSession.verified (session s) = true ->
      options s = Some o ->
      nonzero (reconnectTimeout o) = true ->
      size (Timers.active
              (timers (snd ((openConnection ok1 ;;; openConnection ok2)%js s)))) = 1).
Proof.
  intros s.
  assert (Hinv : timer_inv s) by (apply run_timer_inv, create_timer_inv).
  split; [ now apply timer_inv_at_most_one | ].
  split; [ now apply closeConnection_active | ].
  pose proof (openConnection_timer_inv ok1 s Hinv) as Hinv1.
  destruct (openConnection_cases ok1 s Hinv) as (tm & Hact & Hnext & Hopen).
  split; [ | split; [ now apply timer_inv_at_most_one | split ] ].
  - intros id Hid. rewrite Hopen.
    assert (Hlt : (id < Timers.next tm)%positive)
      by (rewrite Hnext; now apply (proj2 Hinv)).
    assert (Hempty : id ∉ Timers.active tm) by (rewrite Hact; apply not_elem_of_empty).
    destruct (truthy (ws (endpoints s))); simpl; [ | exact Hempty ].
    destruct (ApiSession.verified (session s)); simpl; [ | exact Hempty ].
    destruct (options s) as [o' | ]; [ | exact Hempty ].
    destruct (nonzero (reconnectTimeout o')); simpl; [ | exact Hempty ].
    rewrite Hact. intros Hin. apply elem_of_union in Hin.
    destruct Hin as [Hin | Hin].
    + apply elem_of_singleton in Hin. lia.
    + now apply not_elem_of_empty in Hin.
  - rewrite Hopen. intros Hcase.
    destruct (truthy (ws (endpoints s))); simpl; [ | exact Hact ].
    destruct (ApiSession.verified (session s)); simpl; [ | exact Hact ].
    destruct (options s) as [o' | ]; [ | exact Hact ].
    destruct Hcase as [Hv | Hr]; [ discriminate Hv | ].
    exfalso. apply Hr. now destruct (nonzero (reconnectTimeout o')).
  - intros Hws Hver Hopt Htimeout.
    rewrite Hws, Hver, Hopt, Htimeout in Hopen. simpl in Hopen.
    unfold bind. rewrite Hopen.
    set (s1 := armed ok1 (with_timers tm s)) in *.
    assert (Hinv' : timer_inv s1) by (now apply timer_inv_armed).
    destruct (openConnection_cases ok2 s1 Hinv') as (tm2 & Hact2 & Hnext2 & Hopen2).
    rewrite Hopen2. subst s1. simpl. rewrite Hws, Hver, Hopt, Htimeout. simpl.
    rewrite Hact2, union_empty_r_L. apply size_singleton.
Qed.

End TimerProperties.

(** ** Establishing the session *)

Section EstablishmentProperties.

Import Api Run.

Lemma openConnection_unverified (ok : bool) (s : t) :
  ApiSession.verified (session s) = false ->
  exists tm,
    openConnection ok s
    = if truthy (ws (endpoints s))
      then (Ok tt, with_timers tm s)
      else (Throw errApiUnknownWsEndpoint, with_timers tm s).
Proof.
  intros Hv.
  assert (Hclear : exists tm, clearReconnectInterval s = (Ok tt, with_timers tm s)).
  { unfold clearReconnectInterval, bind, get, modify, ret.
    destruct (reconnectInterval s) as [id | ].
    - now eexists.
    - exists (timers s). now destruct s. }
  destruct Hclear as (tm & Hclear). exists tm.
  unfold openConnection, bind at 1. rewrite Hclear.
  unfold bind, get, throw, ret. simpl. rewrite Hv.
  now destruct (truthy (ws (endpoints s))).
Qed.

Lemma openConnection_session (ok : bool) (s : t) :
  session (snd (openConnection ok s)) = session s.
Proof.
  cbv beta iota delta [openConnection clearReconnectInterval bind get modify throw ret].
  destruct (reconnectInterval s); simpl;
    destruct (truthy (ws (endpoints s))); simpl; try reflexivity;
    destruct (ApiSession.verified (session s)); simpl; try reflexivity;
    destruct (options s) as [o | ]; simpl; try reflexivity;
    destruct (nonzero (reconnectTimeout o)); reflexivity.
Qed.

(** A run of [createSession] whose exchange fails. *)
Lemma createSession_failed (env : Env) (s : t) :
  exchange_fails env s ->
  exists session' tm,
    ApiSession.attributes session'
    = {| ApiSession.state := ApiSession.Destroyed; ApiSession.token := None |}
    /\ createSession env s
       = if truthy (ws (endpoints s))
         then (Ok tt, with_timers tm (with_session (fun _ => session') s))
         else (Throw errApiUnknownWsEndpoint,
               with_timers tm (with_session (fun _ => session') s)).
Proof.
  intros Hfails.
  destruct (createSession_exchange env s) as (session' & Heq & _ & Hd & _).
  specialize (Hd Hfails).
  destruct (openConnection_unverified (connects env)
              (with_session (fun _ => session') s)) as (tm & Hopen).
  { unfold ApiSession.verified. simpl. rewrite Hd. reflexivity. }
  exists session', tm. split; [ exact Hd | ].
  rewrite Heq, Hopen. reflexivity.
Qed.

(** C3, amended: when the hash fetch, the signing or the verification
    fails, [createSession] leaves the session [Destroyed] with a null token
    and the connection as it was (so a [Closed] one stays [Closed]); the
    failure itself is swallowed by the [catch] and reaches no error channel.
    With a channel endpoint configured [createSession] returns normally and
    [error$] receives nothing; without one, [openConnection] throws
    [errApiUnknownWsEndpoint], which is the one error [wrapAsync] puts on
    [error$].  Behind [wrapAsync] nothing is thrown, and the same holds of
    the Sdk's [createApiSession] and its own [error$]. *)
Theorem createSession_failure_is_swallowed (env : Env) (s : t) :
  exchange_fails env s ->
  let after := snd (createSession env s) in
  let wrapped := wrapAsync (createSession env) s in
  ApiSession.attributes (session after)
  = {| ApiSession.state := ApiSession.Destroyed; ApiSession.token := None |}
  /\ connection after = connection s
  /\ errors after = errors s
  /\ fst (createSession env s)
     = (if truthy (ws (endpoints s)) then Ok tt else Throw errApiUnknownWsEndpoint)
  /\ fst wrapped = Ok tt
  /\ session (snd wrapped) = session after
  /\ connection (snd wrapped) = connection s
  /\ errors (snd wrapped)
     = (errors s ++ if truthy (ws (endpoints s)) then [] else [errApiUnknownWsEndpoint])%list
  /\ (forall sdk : Sdk.t,
        Sdk.api sdk = s ->
        fst (Sdk.createApiSession env sdk)
        = Ok (if truthy (ws (endpoints s)) then Some tt else None)
        /\ Sdk.errors (snd (Sdk.createApiSession env sdk))
           = (Sdk.errors sdk
              ++ if truthy (ws (endpoints s)) then [] else [errApiUnknownWsEndpoint])%list).
Proof.
  intros Hfails. cbv zeta.
  destruct (createSession_failed env s Hfails) as (session' & tm & Hd & Heq).
  unfold wrapAsync, try_catch, modify. rewrite Heq.
  assert (Hsdk : forall sdk : Sdk.t,
             Sdk.api sdk = s ->
             fst (Sdk.createApiSession env sdk)
             = Ok (if truthy (ws (endpoints s)) then Some tt else None)
             /\ Sdk.errors (snd (Sdk.createApiSession env sdk))
                = (Sdk.errors sdk
                   ++ if truthy (ws (endpoints s))
                      then [] else [errApiUnknownWsEndpoint])%list).
  { intros sdk Hapi.
    unfold Sdk.createApiSession, Sdk.wrapTAsync, try_catch, bind, ret, modify,
      Sdk.on_api, zoom.
    rewrite Hapi, Heq.
    destruct (truthy (ws (endpoints s))); simpl; rewrite ?app_nil_r; split; reflexivity. }
  destruct (truthy (ws (endpoints s))); simpl; rewrite ?app_nil_r;
    repeat split; try exact Hd; apply Hsdk; assumption.
Qed.

Lemma createSession_failure_is_swallowed_witness :
  let s := received (OptionsChanged (Some Scenario.options)) Scenario.with_device in
  errors (snd (wrapAsync (createSession Scenario.verify_unreachable) s)) = [].
Proof.
  assert (Hfails : exchange_fails Scenario.verify_unreachable
                     (received (OptionsChanged (Some Scenario.options))
                        Scenario.with_device)).
  { right; right. exists (Some Scenario.hash). split; [ reflexivity | ].
    right. eexists. split; [ reflexivity | ]. left. reflexivity. }
  destruct (createSession_failure_is_swallowed Scenario.verify_unreachable
              (received (OptionsChanged (Some Scenario.options)) Scenario.with_device)
              Hfails) as (_ & _ & _ & _ & _ & _ & _ & Herrors & _).
  exact Herrors.
Defined.

(** C3, as stated, fails: with a backend that is configured and a
    transport error on the verify step, the session ends [Destroyed] and
    nothing is thrown, but the error channel receives no error, not one. *)
Lemma verify_failure_reaches_no_error_channel :
  let s := received (OptionsChanged (Some Scenario.options)) Scenario.with_device in
  let out := wrapAsync (createSession Scenario.verify_unreachable) s in
  exchange_fails Scenario.verify_unreachable s
  /\ fst out = Ok tt
  /\ ApiSession.state (ApiSession.attributes (session (snd out))) = ApiSession.Destroyed
  /\ errors s = []
  /\ errors (snd out) = []
  /\ length (errors (snd out)) <> 1.
Proof.
  cbv zeta. split.
  - right; right. exists (Some Scenario.hash). split; [ reflexivity | ].
    right. eexists. split; [ reflexivity | ]. left. reflexivity.
  - repeat split. vm_compute. discriminate.
Qed.

(** A verification whose [data] has no [token] leaves the session
    [Verified] without a token, and the channel is opened with none. *)
Lemma verification_without_token :
  let s := received (OptionsChanged (Some Scenario.options)) Scenario.with_device in
  let out := createSession Scenario.verify_without_token s in
  fst out = Ok tt
  /\ ApiSession.attributes (session (snd out))
     = {| ApiSession.state := ApiSession.Verified; ApiSession.token := None |}
  /\ ApiConnection.opens (connection (snd out))
     = [(Some "ws://api.blockid.test:3000", None)].
Proof. vm_compute. repeat split. Qed.

(** [canAuth] is the conjunction the subscriber computes. *)
Lemma canAuth_true (s : t) :
  canAuth s = true
  <-> exists o, options s = Some o
                /\ truthy (device_address s) = true
                /\ manualAuth o = false.
Proof.
  unfold canAuth. destruct (options s) as [o | ].
  - rewrite andb_true_iff, negb_true_iff. split.
    + intros [Ha Hm]. now exists o.
    + intros (o' & [= <-] & Ha & Hm). now split.
  - split; [ discriminate | ]. intros (o & Ho & _). discriminate Ho.
Qed.

Lemma emit_autoAuth (env : Env) (e : Emission) (s : t) :
  emit env e s = autoAuth env (received e s).
Proof. destruct e as [o | a]; reflexivity. Qed.

(** C5: on every emission of [options$] or of the device's [address$] the
    subscriber evaluates, on the values then current, whether options are
    present, the device has an address and manual auth is not asked for.
    If so it starts [createSession] (the session is set to [Verifying] at
    once), whatever the session's state was, in particular when it was not
    [Verified]; if not it destroys the session, which ends [Destroyed]
    without a token and with the connection [Closed].  Nothing is thrown. *)
Theorem autoAuth_is_level_triggered (env : Env) (e : Emission) (s : t) :
  let s0 := received e s in
  let out := emit env e s in
  fst out = Ok tt
  /\ ((exists o, options s0 = Some o
                 /\ truthy (device_address s0) = true
                 /\ manualAuth o = false) ->
      out = wrapAsync (createSession env) s0
      /\ exists final,
          ApiSession.assigned (session (snd out))
          = (ApiSession.assigned (session s0) ++ [ApiSession.Verifying; final])%list)
  /\ (~ (exists o, options s0 = Some o
                   /\ truthy (device_address s0) = true
                   /\ manualAuth o = false) ->
      out = destroySession s0
      /\ ApiSession.attributes (session (snd out))
         = {| ApiSession.state := ApiSession.Destroyed; ApiSession.token := None |}
      /\ ApiConnection.state (connection (snd out)) = ApiConnection.Closed).
Proof.
  cbv zeta. rewrite emit_autoAuth. set (s0 := received e s).
  unfold autoAuth, bind, get.
  pose proof (canAuth_true s0) as Hcan.
  destruct (canAuth s0).
  - split; [ apply wrapAsync_state | ].
    split; [ | intros Hn; exfalso; apply Hn; now apply Hcan ].
    intros _. split; [ reflexivity | ].
    destruct (createSession_exchange env s0) as (session' & Heq & Hlog & _).
    exists (ApiSession.state (ApiSession.attributes session')).
    rewrite <- Hlog.
    assert (Hs : session (snd (createSession env s0)) = session')
      by (rewrite Heq; apply openConnection_session).
    destruct (wrapAsync_state (createSession env) s0) as [_ [-> | (err & _ & ->)]];
      simpl; now rewrite Hs.
  - assert (Hd : fst (destroySession s0) = Ok tt
                 /\ ApiSession.attributes (session (snd (destroySession s0)))
                    = {| ApiSession.state := ApiSession.Destroyed;
                         ApiSession.token := None |}
                 /\ ApiConnection.state (connection (snd (destroySession s0)))
                    = ApiConnection.Closed).
    { cbv beta iota delta [destroySession closeConnection clearReconnectInterval
                             bind get modify ret].
      simpl. destruct (reconnectInterval s0); simpl; repeat split. }
    split; [ apply Hd | ].
    split; [ intros Hy; apply Hcan in Hy; discriminate Hy | ].
    intros _. split; [ reflexivity | apply Hd ].
Qed.

Lemma autoAuth_is_level_triggered_witness :
  let s0 := received (OptionsChanged (Some Scenario.options)) Scenario.with_device in
  let out := emit Scenario.backend_up (OptionsChanged (Some Scenario.options))
               Scenario.with_device in
  exists final,
    ApiSession.assigned (session (snd out))
    = (ApiSession.assigned (session s0) ++ [ApiSession.Verifying; final])%list.
Proof.
  destruct (autoAuth_is_level_triggered Scenario.backend_up
              (OptionsChanged (Some Scenario.options)) Scenario.with_device)
    as (_ & Hyes & _).
  apply Hyes.
  exists Scenario.options. repeat split; reflexivity.
Defined.

End EstablishmentProperties.

(** Two [openConnection] in a row on a verified, configured [Api]. *)
Lemma reconnect_timer_unique_witness :
  let s := Run.run (fun _ => [])
             [Run.Emit Scenario.backend_up (Api.AddressChanged (Some "0xA1"));
              Run.Emit Scenario.backend_up (Api.OptionsChanged (Some Scenario.options))]
             Api.create in
  size (Timers.active
          (Api.timers (snd ((Api.openConnection true ;;; Api.openConnection false)%js s))))
  = 1.
Proof.
  pose proof (reconnect_timer_unique (fun _ => [])
                [Run.Emit Scenario.backend_up (Api.AddressChanged (Some "0xA1"));
                 Run.Emit Scenario.backend_up
                   (Api.OptionsChanged (Some Scenario.options))]
                true false Scenario.options) as H.
  cbv zeta in H. destruct H as (_ & _ & _ & _ & _ & Htwice).
  apply Htwice; reflexivity.
Defined.

(** ** The secure-link challenge *)

Section ChallengeProperties.

Import ApiEvents Sdk.

Variable encodeApiEvent : IApiEvent -> Buffer.
Variable recoverAddressFromPersonalMessage : Buffer -> string -> option string.
Variable buildActionUrl : ILinkerAction -> LinkerActionSenderTypes -> string.
Variable muted_emits : bool -> bool -> bool.

Lemma with_api_id (s : t) : with_api (api s) s = s.
Proof. now destruct s. Qed.

Lemma request_spec (event : IApiEvent) (s : t) :
  try_catch (on_api (Api.sendEvent encodeApiEvent event))
            (fun err => modify (emit_error err)) s
  = (Ok tt, requested (encodeApiEvent event) s).
Proof.
  unfold try_catch, on_api, zoom, requested, modify.
  destruct (ApiConnection.opened (Api.connection (api s))) eqn:Ho.
  - now rewrite (sendEvent_opened encodeApiEvent event (api s) Ho).
  - rewrite (sendEvent_closed encodeApiEvent event (api s) Ho).
    now rewrite with_api_id.
Qed.

Lemma muteApiConnection_spec (s : t) :
  muteApiConnection encodeApiEvent s = (Ok tt, requested (mute_frame encodeApiEvent) s).
Proof. apply request_spec. Qed.

Lemma unMuteApiConnection_spec (s : t) :
  unMuteApiConnection encodeApiEvent s = (Ok tt, requested (unmute_frame encodeApiEvent) s).
Proof. apply request_spec. Qed.

Lemma requested_secureAction (frame : Buffer) (s : t) :
  secureAction (requested frame s) = secureAction s.
Proof. unfold requested. now destruct (ApiConnection.opened _). Qed.

Lemma requested_incomingAction (frame : Buffer) (s : t) :
  incomingAction (requested frame s) = incomingAction s.
Proof. unfold requested. now destruct (ApiConnection.opened _). Qed.

Lemma requested_sent (frame : Buffer) (s : t) :
  ApiConnection.sent (Api.connection (api (requested frame s)))
  = (ApiConnection.sent (Api.connection (api s))
     ++ if ApiConnection.opened (Api.connection (api s)) then [frame] else [])%list.
Proof.
  unfold requested. destruct (ApiConnection.opened _); simpl; [ reflexivity | ].
  now rewrite app_nil_r.
Qed.

Lemma requested_errors (frame : Buffer) (s : t) :
  errors (requested frame s)
  = (errors s
     ++ if ApiConnection.opened (Api.connection (api s))
        then [] else [errApiInvalidConnectionState])%list.
Proof.
  unfold requested. destruct (ApiConnection.opened _); simpl; [ | reflexivity ].
  now rewrite app_nil_r.
Qed.

Lemma resolves_true (s : t) (signer : Nullable) (signature : string) :
  resolves recoverAddressFromPersonalMessage s signer signature = true
  <-> exists nonce,
       secureAction s
       = Some {| secure_type := CreateAccountDevice; secure_hash := nonce |}
       /\ signer = returned (recoverAddressFromPersonalMessage nonce signature).
Proof.
  unfold resolves. destruct (secureAction s) as [[type nonce] | ]; simpl.
  - rewrite andb_true_iff, !bool_decide_eq_true. split.
    + intros [Hsigner ->]. now exists nonce.
    + intros (nonce' & Heq & Hsigner). injection Heq as -> ->. now split.
  - split; [ discriminate | ]. intros (nonce & Heq & _). discriminate Heq.
Qed.

Lemma on_SignedSecureAction_spec
    (signer : Nullable) (recipient : option string) (signature : string) (s : t) :
  on_SignedSecureAction encodeApiEvent recoverAddressFromPersonalMessage
    (Some (ISignedSecureAction signer recipient signature)) s
  = (Ok tt,
     requested (mute_frame encodeApiEvent)
       (if resolves recoverAddressFromPersonalMessage s signer signature
        then next_incomingAction (resolved_action s (given signer)) s
        else s)).
Proof.
  unfold on_SignedSecureAction, try_finally, destroySecureAction, resolve, resolves.
  cbv beta iota delta [bind destructure ret get modify payload_signer payload_signature].
  simpl.
  destruct (secureAction s) as [challenge | ]; simpl.
  - destruct (bool_decide (signer = returned _)); simpl.
    + destruct (secure_type challenge) eqn:Ht; simpl;
        now rewrite muteApiConnection_spec.
    + now rewrite muteApiConnection_spec.
  - now rewrite muteApiConnection_spec.
Qed.

Lemma wrapTAsync_ok {A} (m : M t A) (s s' : t) (a : A) :
  m s = (Ok a, s') -> wrapTAsync m s = (Ok (Some a), s').
Proof. intros H. unfold wrapTAsync, try_catch, bind, ret. now rewrite H. Qed.

Lemma wrapTAsync_throw {A} (m : M t A) (s s' : t) (e : Error) :
  m s = (Throw e, s') -> wrapTAsync m s = (Ok None, emit_error e s').
Proof. intros H. unfold wrapTAsync, try_catch, bind, ret, modify. now rewrite H. Qed.

Lemma on_signed_event
    (env : Env) (signer : Nullable) (recipient : option string) (signature : string)
    (s : t) :
  on_event encodeApiEvent recoverAddressFromPersonalMessage muted_emits env
    {| type := SignedSecureAction;
       payload := Some (ISignedSecureAction signer recipient signature) |} s
  = (Ok (Some tt),
     requested (mute_frame encodeApiEvent)
       (if resolves recoverAddressFromPersonalMessage s signer signature
        then next_incomingAction (resolved_action s (given signer)) s
        else s)).
Proof.
  unfold on_event. simpl. apply wrapTAsync_ok. apply on_SignedSecureAction_spec.
Qed.

(** C2, amended: the handler of a signed secure action never writes the
    challenge slot.  It emits a LinkAction exactly when a challenge for a
    new account device is outstanding and the reported signer is [===] to
    what recovery from the signature over its nonce returns: the address,
    or [null] for a signature no address is recovered from.  The action
    names the reported signer as the device address and as the sender's
    data, so it names [null] when a [null] signer meets a failed recovery.
    Otherwise (no challenge, another kind of challenge, another signer, a
    signer that is left out) it emits none.  In every case it then asks
    the relay to mute the connection: the mute frame is sent when the
    connection is opened, and [errApiInvalidConnectionState] goes out on
    [error$] when it is not. *)
Theorem signed_secure_action_handler
    (env : Env) (signer : Nullable) (recipient : option string) (signature : string)
    (s : t) :
  let out :=
    on_event encodeApiEvent recoverAddressFromPersonalMessage muted_emits env
      {| type := SignedSecureAction;
         payload := Some (ISignedSecureAction signer recipient signature) |} s in
  let opened := ApiConnection.opened (Api.connection (api s)) in
  fst out = Ok (Some tt)
  /\ secureAction (snd out) = secureAction s
  /\ incomingAction (snd out)
     = (incomingAction s
        ++ if resolves recoverAddressFromPersonalMessage s signer signature
           then [ {| action_type := CreateAccountDevice;
                     action_payload :=
                       ICreateAccountDevice (network_version s) (given signer) None;
                     sender := Some {| sender_type := Device;
                                       sender_data := given signer |} |} ]
           else [])%list
  /\ ApiConnection.sent (Api.connection (api (snd out)))
     = (ApiConnection.sent (Api.connection (api s))
        ++ if opened then [mute_frame encodeApiEvent] else [])%list
  /\ errors (snd out)
     = (errors s ++ if opened then [] else [errApiInvalidConnectionState])%list
  /\ (resolves recoverAddressFromPersonalMessage s signer signature = true
      <-> exists nonce,
           secureAction s
           = Some {| secure_type := CreateAccountDevice; secure_hash := nonce |}
           /\ match recoverAddressFromPersonalMessage nonce signature with
              | Some address => signer = Given address
              | None => signer = Null
              end).
Proof.
  cbv zeta. rewrite on_signed_event. simpl.
  rewrite requested_secureAction, requested_incomingAction, requested_sent,
    requested_errors.
  assert (Hres : resolves recoverAddressFromPersonalMessage s signer signature = true
                 <-> exists nonce,
                      secureAction s
                      = Some {| secure_type := CreateAccountDevice;
                                secure_hash := nonce |}
                      /\ match recoverAddressFromPersonalMessage nonce signature with
                         | Some address => signer = Given address
                         | None => signer = Null
                         end).
  { rewrite resolves_true. split; intros (nonce & Hslot & Hsigner); exists nonce;
      (split; [ exact Hslot | ]);
      destruct (recoverAddressFromPersonalMessage nonce signature); exact Hsigner. }
  split; [ reflexivity | ].
  destruct (resolves recoverAddressFromPersonalMessage s signer signature); simpl;
    rewrite ?app_nil_r; repeat (split; [ reflexivity | ]); exact Hres.
Qed.

(** C4, amended: when the connection reports [muted == true] the
    challenge slot is cleared, and a signed response that arrives afterwards
    emits no LinkAction.  An explicit cancel ([destroySecureAction]) does not
    write the slot: it asks the relay to mute the connection (the mute frame
    is sent when the connection is opened, [errApiInvalidConnectionState]
    goes out on [error$] when it is not), and the slot is cleared once the
    connection reports muted. *)
Theorem cancel_clears_on_muted_report
    (env : Env) (signer : Nullable) (recipient : option string) (signature : string)
    (s : t) :
  let muted := snd (on_muted true s) in
  let late :=
    on_event encodeApiEvent recoverAddressFromPersonalMessage muted_emits env
      {| type := SignedSecureAction;
         payload := Some (ISignedSecureAction signer recipient signature) |} muted in
  let cancelled := snd (destroySecureAction encodeApiEvent s) in
  secureAction muted = None
  /\ incomingAction (snd late) = incomingAction s
  /\ secureAction (snd late) = None
  /\ fst (destroySecureAction encodeApiEvent s) = Ok tt
  /\ cancelled = requested (mute_frame encodeApiEvent) s
  /\ secureAction cancelled = secureAction s
  /\ secureAction (snd (on_muted true cancelled)) = None
  /\ secureAction (snd (on_muted false s)) = secureAction s.
Proof.
  cbv zeta. rewrite on_signed_event.
  unfold destroySecureAction. rewrite muteApiConnection_spec. simpl.
  rewrite requested_incomingAction, !requested_secureAction.
  repeat split; rewrite ?app_nil_r; reflexivity.
Qed.

Lemma length_randomBytes (size : nat) (entropy : nat -> Byte.byte) :
  length (randomBytes size entropy) = size.
Proof. unfold randomBytes. now rewrite length_map, length_seq. Qed.

Lemma createSecureActionUrl_spec (type : LinkerActionsTypes) (entropy : nat -> Byte.byte)
    (s : t) :
  createSecureActionUrl encodeApiEvent buildActionUrl type entropy s
  = (Ok (buildActionUrl
           {| action_type := Secure;
              action_payload := ISecure (network_version s) (randomBytes 16 entropy);
              sender := None |}
           Device),
     with_secureAction
       (Some {| secure_type := type; secure_hash := randomBytes 16 entropy |})
       (requested (unmute_frame encodeApiEvent) s)).
Proof.
  unfold createSecureActionUrl, bind at 1. rewrite unMuteApiConnection_spec.
  unfold bind, modify, get, ret. simpl.
  unfold requested. now destruct (ApiConnection.opened _).
Qed.

(** C6, amended: every call of [createSecureActionUrl] draws a nonce of 16
    bytes, stores [{type, nonce}] as the outstanding challenge in place of
    any earlier one, and returns the link built from the action [Secure]
    with the network's version and the nonce, for the sender role
    [Device].  It asks the relay to unmute the connection: the unmute
    frame is sent when the connection is opened, and
    [errApiInvalidConnectionState] goes out on [error$] when it is not (the
    challenge is stored all the same).  After a challenge was created, a
    signed response whose reported signer is not [===] to what recovery
    over the new nonce returns (such as a late response to an earlier
    nonce, from which the signer is not recovered over the new one) emits
    no LinkAction and leaves the new challenge in the slot. *)
Theorem createSecureActionUrl_replaces_challenge
    (type : LinkerActionsTypes) (entropy : nat -> Byte.byte) (s : t) :
  let nonce := randomBytes 16 entropy in
  let out := createSecureActionUrl encodeApiEvent buildActionUrl type entropy s in
  let opened := ApiConnection.opened (Api.connection (api s)) in
  length nonce = 16
  /\ fst out
     = Ok (buildActionUrl
             {| action_type := Secure;
                action_payload := ISecure (network_version s) nonce;
                sender := None |}
             Device)
  /\ secureAction (snd out) = Some {| secure_type := type; secure_hash := nonce |}
  /\ ApiConnection.sent (Api.connection (api (snd out)))
     = (ApiConnection.sent (Api.connection (api s))
        ++ if opened then [unmute_frame encodeApiEvent] else [])%list
  /\ errors (snd out)
     = (errors s ++ if opened then [] else [errApiInvalidConnectionState])%list
  /\ (forall env signer recipient signature,
        signer <> returned (recoverAddressFromPersonalMessage nonce signature) ->
        let late :=
          on_event encodeApiEvent recoverAddressFromPersonalMessage muted_emits env
            {| ApiEvents.type := SignedSecureAction;
               payload := Some (ISignedSecureAction signer recipient signature) |}
            (snd out) in
        incomingAction (snd late) = incomingAction (snd out)
        /\ secureAction (snd late)
           = Some {| secure_type := type; secure_hash := nonce |}).
Proof.
  cbv zeta. split; [ apply length_randomBytes | ].
  rewrite createSecureActionUrl_spec.
  cbn [fst snd secureAction with_secureAction api errors].
  split; [ reflexivity | ]. split; [ reflexivity | ].
  split; [ apply requested_sent | ]. split; [ apply requested_errors | ].
  intros env signer recipient signature Hne.
  rewrite on_signed_event. cbn [fst snd].
  rewrite requested_incomingAction, requested_secureAction.
  unfold resolves. cbn [secureAction with_secureAction secure_hash].
  rewrite (bool_decide_eq_false_2 _ Hne). simpl.
  split; reflexivity.
Qed.


End ChallengeProperties.

(** *** The challenge at concrete events *)

Section ChallengeExamples.

Import Sdk Scenario.

(** C2, as stated, fails.  With a challenge over the first nonce
    outstanding, a response signed by ["0xB2"] over that nonce and reported
    as signed by ["0xB2"] resolves to the LinkAction, but the challenge is
    still in the slot afterwards; and with no challenge outstanding the same
    event is not a no-op: a mute frame goes out on the connection. *)
Lemma signed_response_keeps_challenge :
  let nonce := randomBytes 16 entropy1 in
  let out := on_event frame_of recover on_change no_backend signed_by_B2 challenged in
  let idle := on_event frame_of recover on_change no_backend signed_by_B2 sdk_online in
  recover nonce (sign "0xB2" nonce) = Some "0xB2"
  /\ secureAction challenged
     = Some {| secure_type := CreateAccountDevice; secure_hash := nonce |}
  /\ incomingAction (snd out) = [resolved_action challenged (Some "0xB2")]
  /\ secureAction (snd out)
     = Some {| secure_type := CreateAccountDevice; secure_hash := nonce |}
  /\ secureAction sdk_online = None
  /\ ApiConnection.sent (Api.connection (api sdk_online)) = []
  /\ ApiConnection.sent (Api.connection (api (snd idle))) = [mute_frame frame_of].
Proof. vm_compute. repeat split. Qed.

(** A [null] signer and a failed recovery are [===]: the challenge
    resolves to a LinkAction that names [null].  A signer that is left out
    is [undefined], which is not [null]: nothing is emitted. *)
Lemma null_signer_meets_failed_recovery :
  let out := on_event frame_of recover on_change no_backend signed_by_null challenged in
  let left_out :=
    on_event frame_of recover on_change no_backend
      {| ApiEvents.type := ApiEvents.SignedSecureAction;
         ApiEvents.payload :=
           Some (ApiEvents.ISignedSecureAction ApiEvents.Absent None "unsigned") |}
      challenged in
  recover (randomBytes 16 entropy1) "unsigned" = None
  /\ incomingAction (snd out) = [resolved_action challenged None]
  /\ incomingAction (snd left_out) = [].
Proof. vm_compute. repeat split. Qed.

(** C4, as stated, fails: after an explicit cancel the challenge is still
    in the slot, and a valid signed response that follows is not ignored
    but resolves to a LinkAction. *)
Lemma explicit_cancel_keeps_challenge :
  let nonce := randomBytes 16 entropy1 in
  let cancelled := snd (destroySecureAction frame_of challenged) in
  let out := on_event frame_of recover on_change no_backend signed_by_B2 cancelled in
  secureAction cancelled
  = Some {| secure_type := CreateAccountDevice; secure_hash := nonce |}
  /\ incomingAction cancelled = []
  /\ incomingAction (snd out) = [resolved_action challenged (Some "0xB2")].
Proof. vm_compute. repeat split. Qed.

(** C6, as stated, fails.  On a connection that is not opened the call
    stores the challenge but unmutes nothing: no frame is sent and an error
    goes out instead.  And after a second challenge, a late response to the
    first nonce is not without effect: it emits no LinkAction, but a mute
    frame follows the two unmute frames on the connection. *)
Lemma createSecureActionUrl_offline_sends_no_unmute :
  let out := createSecureActionUrl frame_of url_of CreateAccountDevice entropy1
               sdk_offline in
  let second := snd (createSecureActionUrl frame_of url_of CreateAccountDevice entropy2
                       challenged) in
  let late := on_event frame_of recover on_change no_backend signed_by_B2 second in
  secureAction (snd out)
  = Some {| secure_type := CreateAccountDevice;
            secure_hash := randomBytes 16 entropy1 |}
  /\ ApiConnection.sent (Api.connection (api (snd out))) = []
  /\ Api.connection (api (snd out)) = Api.connection (api sdk_offline)
  /\ errors (snd out) = [errApiInvalidConnectionState]
  /\ incomingAction (snd late) = []
  /\ ApiConnection.sent (Api.connection (api (snd late)))
     = [unmute_frame frame_of; unmute_frame frame_of; mute_frame frame_of].
Proof. vm_compute. repeat split. Qed.

(** A late response to the first nonce, after a second challenge. *)
Lemma createSecureActionUrl_replaces_challenge_witness :
  let second := snd (createSecureActionUrl frame_of url_of CreateAccountDevice entropy2
                       challenged) in
  let late := on_event frame_of recover on_change no_backend signed_by_B2 second in
  incomingAction (snd late) = incomingAction second
  /\ secureAction (snd late)
     = Some {| secure_type := CreateAccountDevice;
               secure_hash := randomBytes 16 entropy2 |}.
Proof.
  destruct (createSecureActionUrl_replaces_challenge frame_of recover url_of on_change
              CreateAccountDevice entropy2 challenged)
    as (_ & _ & _ & _ & _ & Hlate).
  apply (Hlate no_backend (ApiEvents.Given "0xB2") None
           (sign "0xB2" (randomBytes 16 entropy1))).
  vm_compute. discriminate.
Defined.


End ChallengeExamples.

(** ** The event codec *)

Section CodecProperties.

Import ApiEvents EventCodec.

Lemma decode_encode_type (kind : Types) : decode_type (encode_type kind) = Some kind.
Proof. now destruct kind. Qed.

Lemma split_fixed_width {A} (n : nat) (field rest : list A) :
  length field = n ->
  take n (field ++ rest) = field /\ drop n (field ++ rest) = rest.
Proof.
  intros <-. split.
  - apply take_app_length.
  - apply drop_app_length.
Qed.

(** C10: decoding the encoding of an event of the fixed event-kind set
    gives the event back, for the kinds without payload, for the account
    name, and for the payloads with an address of 20 bytes and a signature
    of 65 bytes. *)
Theorem decode_encode (e : Event) :
  well_formed e -> decode (encode e) = Recognized e.
Proof.
  destruct e as [kind | ensName | kind account address | signer signature];
    unfold well_formed, encode, decode; rewrite decode_encode_type.
  - intros [-> | [-> | [-> | ->]]]; reflexivity.
  - intros _. now rewrite string_of_list_byte_of_string.
  - intros [Hkind Hwidth].
    destruct (split_fixed_width address_width address (list_byte_of_string account) Hwidth)
      as [Htake Hdrop].
    assert (Hlen : Nat.leb address_width
                     (length (address ++ list_byte_of_string account)) = true).
    { apply Nat.leb_le. rewrite length_app, Hwidth. lia. }
    destruct Hkind as [-> | [-> | ->]]; rewrite Hlen, Htake, Hdrop;
      now rewrite string_of_list_byte_of_string.
  - intros [Hsigner Hsignature].
    destruct (split_fixed_width address_width signer signature Hsigner) as [Htake Hdrop].
    assert (Hlen : Nat.eqb (length (signer ++ signature))
                     (address_width + signature_width) = true).
    { apply Nat.eqb_eq. now rewrite length_app, Hsigner, Hsignature. }
    now rewrite Hlen, Htake, Hdrop.
Qed.

(** A signed secure action with an address and a signature of full width. *)
Lemma decode_encode_witness :
  decode (encode (Signed (repeat Byte.xab address_width)
                         (repeat Byte.x1c signature_width)))
  = Recognized (Signed (repeat Byte.xab address_width)
                       (repeat Byte.x1c signature_width)).
Proof.
  apply (decode_encode (Signed (repeat Byte.xab address_width)
                               (repeat Byte.x1c signature_width))).
  simpl. split; reflexivity.
Defined.

End CodecProperties.

(** ** ENS names *)

Section EnsProperties.

Import Stdlib.Strings.Ascii.
Import Ens.

Lemma split_not_nil (s : string) : split s <> [].
Proof.
  induction s as [ | c rest IH ]; simpl.
  - discriminate.
  - destruct (Ascii.eqb c SEPARATOR); [ discriminate | ].
    destruct (split rest); discriminate.
Qed.

Lemma join_cons (p : string) (parts : list string) :
  parts <> [] -> join (p :: parts) = p ++ String SEPARATOR (join parts).
Proof. destruct parts; [ congruence | reflexivity ]. Qed.

Lemma join_split (s : string) : join (split s) = s.
Proof.
  induction s as [ | c rest IH ]; [ reflexivity | ].
  cbn [split]. destruct (Ascii.eqb c SEPARATOR) eqn:Hc.
  - apply Ascii.eqb_eq in Hc. subst c.
    rewrite join_cons by apply split_not_nil. now rewrite IH.
  - pose proof (split_not_nil rest) as Hne.
    destruct (split rest) as [ | head tail ]; [ congruence | ].
    rewrite <- IH. destruct tail; reflexivity.
Qed.

Lemma split_separator_free (s : string) :
  separator_free s = true -> split s = [s].
Proof.
  induction s as [ | c rest IH ]; [ reflexivity | ].
  cbn [separator_free split]. intros H. apply andb_true_iff in H.
  destruct H as [Hc Hrest]. apply negb_true_iff in Hc.
  rewrite Hc, (IH Hrest). reflexivity.
Qed.

Lemma split_app (label rest : string) :
  separator_free label = true ->
  split (label ++ String SEPARATOR rest) = label :: split rest.
Proof.
  induction label as [ | c l IH ]; [ reflexivity | ].
  cbn [separator_free]. intros H. apply andb_true_iff in H.
  destruct H as [Hc Hl]. apply negb_true_iff in Hc.
  change (String c l ++ String SEPARATOR rest)%string
    with (String c (l ++ String SEPARATOR rest)).
  cbn [split]. rewrite Hc, (IH Hl). reflexivity.
Qed.

Lemma split_head_separator_free (s head : string) (tail : list string) :
  split s = head :: tail -> separator_free head = true.
Proof.
  revert head tail. induction s as [ | c rest IH ]; intros head tail; cbn [split].
  - intros [= <- _]. reflexivity.
  - destruct (Ascii.eqb c SEPARATOR) eqn:Hc.
    + intros [= <- _]. reflexivity.
    + destruct (split rest) as [ | h t ] eqn:Hs.
      * intros [= <- _]. cbn [separator_free]. now rewrite Hc.
      * intros [= <- _]. cbn [separator_free]. rewrite Hc. simpl.
        now apply (IH h t).
Qed.

Lemma nonempty_app (label rest : string) (c : ascii) :
  nonempty (label ++ String c rest) = true.
Proof. now destruct label. Qed.

Lemma splitEnsName_join (label root : string) :
  separator_free label = true ->
  splitEnsName (Some (label ++ String SEPARATOR root))
  = {| label := Some label; rootNodeName := Some root |}.
Proof.
  intros Hfree. unfold splitEnsName.
  rewrite nonempty_app, (split_app label root Hfree).
  pose proof (split_not_nil root) as Hne.
  destruct (split root) as [ | h t ] eqn:Hs; [ congruence | ].
  cbn [length Nat.ltb Nat.leb head tail]. rewrite <- Hs, join_split. reflexivity.
Qed.

(** X15: [splitEnsName] undoes the joining of a label and a root.  A name
    whose first label is [label] and whose remainder is [root] splits into
    the two, also when either is empty; a name without separator, the
    empty name and [null] give no label and no root; and whatever it
    returns as a label and a root joins back to the name. *)
Theorem splitEnsName_inverts_join (name : string) :
  (forall label root,
      separator_free label = true ->
      name = (label ++ String SEPARATOR root)%string ->
      splitEnsName (Some name) = {| label := Some label; rootNodeName := Some root |})
  /\ (separator_free name = true ->
      splitEnsName (Some name) = {| label := None; rootNodeName := None |})
  /\ splitEnsName None = {| label := None; rootNodeName := None |}
  /\ (forall l r,
        splitEnsName (Some name) = {| label := Some l; rootNodeName := Some r |} ->
        name = (l ++ String SEPARATOR r)%string /\ separator_free l = true).
Proof.
  split; [ | split; [ | split ] ].
  - intros l root Hfree ->. now apply splitEnsName_join.
  - intros Hfree. unfold splitEnsName.
    rewrite (split_separator_free name Hfree). simpl.
    now destruct (nonempty name).
  - reflexivity.
  - intros l r. unfold splitEnsName.
    destruct (nonempty name); [ | discriminate ].
    destruct (split name) as [ | p0 [ | p1 ps ]] eqn:Hs; cbn [length Nat.ltb Nat.leb];
      try discriminate.
    cbn [head tail]. intros [= <- <-]. split.
    + rewrite <- (join_split name), Hs. reflexivity.
    + now apply (split_head_separator_free name p0 (p1 :: ps)).
Qed.

Lemma splitEnsName_inverts_join_witness :
  splitEnsName (Some "alice.blockid.test")
  = {| label := Some "alice"; rootNodeName := Some "blockid.test" |}.
Proof.
  destruct (splitEnsName_inverts_join "alice.blockid.test") as (Hsplit & _).
  apply Hsplit; reflexivity.
Defined.

Section WithToAscii.

Variable toAscii : string -> Outcome string.

(** X16: [prepareEnsName] hands back what [toAscii] returns for the joined
    parts, empty parts included (the filtered name it computes is dropped),
    and [null] for an empty result; so for a name that [toAscii] leaves as
    it is, [splitEnsName] of [prepareEnsName(label, ...rest)] is the label
    and the joined rest. *)
Theorem prepareEnsName_then_splitEnsName (label : string) (rest : list string) :
  rest <> [] ->
  separator_free label = true ->
  toAscii (join (label :: rest)) = Returned (join (label :: rest)) ->
  prepareEnsName toAscii (label :: rest) = Returned (Some (join (label :: rest)))
  /\ splitEnsName (Some (join (label :: rest)))
     = {| label := Some label; rootNodeName := Some (join rest) |}.
Proof.
  intros Hrest Hfree Hascii. rewrite (join_cons label rest Hrest) in *.
  split.
  - unfold prepareEnsName, normalize. rewrite (join_cons label rest Hrest), Hascii.
    now rewrite nonempty_app.
  - now apply splitEnsName_join.
Qed.

End WithToAscii.

Lemma prepareEnsName_then_splitEnsName_witness :
  prepareEnsName Scenario.ascii_only ["alice"; ""; "test"] = Returned (Some "alice..test")
  /\ splitEnsName (Some "alice..test")
     = {| label := Some "alice"; rootNodeName := Some ".test" |}.
Proof.
  apply (prepareEnsName_then_splitEnsName Scenario.ascii_only "alice" [""; "test"]).
  - discriminate.
  - reflexivity.
  - reflexivity.
Defined.

Section WithHash.

Variable sha3 : list Data -> Buffer.
Variable anyToHex : Buffer -> string.

Lemma ensNode_cons (label rest : string) :
  separator_free label = true ->
  ensNode sha3 (label ++ String SEPARATOR rest)
  = sha3 [Bytes (ensNode sha3 rest); Bytes (sha3 [Text label])].
Proof.
  intros Hfree. unfold ensNode. rewrite (split_app label rest Hfree).
  cbn [map rev]. now rewrite fold_left_app.
Qed.

(** X17: [getEnsNameHash] follows the recursion of the ENS name hash: the
    node of [label.rest] is [sha3] of the node of [rest] and of [sha3] of
    the label, and the node of a single label is [sha3] of 32 zero bytes
    and of [sha3] of the label.  The empty name and [null] have no hash. *)
Theorem getEnsNameHash_recursion (label rest : string) :
  separator_free label = true ->
  getEnsNameHash sha3 anyToHex (Some (label ++ String SEPARATOR rest))
  = Some (anyToHex (sha3 [Bytes (ensNode sha3 rest); Bytes (sha3 [Text label])]))
  /\ (label <> EmptyString ->
      getEnsNameHash sha3 anyToHex (Some label)
      = Some (anyToHex (sha3 [Bytes (repeat Byte.x00 32); Bytes (sha3 [Text label])])))
  /\ (rest <> EmptyString ->
      getEnsNameHash sha3 anyToHex (Some rest) = Some (anyToHex (ensNode sha3 rest)))
  /\ getEnsNameHash sha3 anyToHex (Some EmptyString) = None
  /\ getEnsNameHash sha3 anyToHex None = None.
Proof.
  intros Hfree.
  assert (Hne : forall s : string, s <> EmptyString -> nonempty s = true)
    by (intros [ | c s ] Hs; [ congruence | reflexivity ]).
  split; [ | split; [ | split; [ | split; reflexivity ] ] ].
  - unfold getEnsNameHash. now rewrite nonempty_app, (ensNode_cons label rest Hfree).
  - intros Hlabel. unfold getEnsNameHash, ensNode.
    now rewrite (Hne label Hlabel), (split_separator_free label Hfree).
  - intros Hrest. unfold getEnsNameHash. now rewrite (Hne rest Hrest).
Qed.

End WithHash.

Lemma getEnsNameHash_recursion_witness :
  getEnsNameHash Scenario.digest Scenario.hex_of (Some "alice.test")
  = Some (Scenario.hex_of
            (Scenario.digest
               [Bytes (ensNode Scenario.digest "test");
                Bytes (Scenario.digest [Text "alice"])])).
Proof.
  destruct (getEnsNameHash_recursion Scenario.digest Scenario.hex_of "alice" "test")
    as (Hcons & _).
  - reflexivity.
  - exact Hcons.
Defined.

End EnsProperties.

(** ** More on the Api: endpoints, sessions and the channel *)

Section ApiRunProperties.

Import Api Run.

Variable encodeApiEvent : ApiEvents.IApiEvent -> Buffer.

Lemma buildEndpoint_truthy (p : Protocol) (o : IApiOptions) :
  truthy (buildEndpoint p (Some o)) = true.
Proof. destruct p; reflexivity. Qed.

Lemma clearReconnectInterval_shape (s : t) :
  exists tm, clearReconnectInterval s = (Ok tt, with_timers tm s).
Proof.
  unfold clearReconnectInterval, bind, get, modify, ret.
  destruct (reconnectInterval s) as [id | ].
  - now eexists.
  - exists (timers s). now destruct s.
Qed.

(** [openConnection], branch by branch, whatever the timers are. *)
Lemma openConnection_shape (ok : bool) (s : t) :
  exists tm,
    openConnection ok s
    = if negb (truthy (ws (endpoints s)))
      then (Throw errApiUnknownWsEndpoint, with_timers tm s)
      else if negb (ApiSession.verified (session s))
      then (Ok tt, with_timers tm s)
      else match options s with
           | None => (Throw TypeError, with_timers tm s)
           | Some o =>
               if nonzero (reconnectTimeout o)
               then (Ok tt, armed ok (with_timers tm s))
               else (Ok tt, open ok (with_timers tm s))
           end.
Proof.
  destruct (clearReconnectInterval_shape s) as (tm & Hclear). exists tm.
  unfold openConnection, bind at 1. rewrite Hclear.
  unfold bind, get, modify, throw, ret. simpl.
  destruct (truthy (ws (endpoints s))); simpl; [ | reflexivity ].
  destruct (ApiSession.verified (session s)); simpl; [ | reflexivity ].
  destruct (options s) as [o | ]; [ | reflexivity ].
  destruct (nonzero (reconnectTimeout o)); reflexivity.
Qed.

Lemma openConnection_frame (ok : bool) (s : t) :
  same_config s (snd (openConnection ok s))
  /\ errors (snd (openConnection ok s)) = errors s.
Proof.
  destruct (openConnection_shape ok s) as (tm & ->). unfold same_config.
  destruct (truthy (ws (endpoints s))); simpl; [ | repeat split ].
  destruct (ApiSession.verified (session s)); simpl; [ | repeat split ].
  destruct (options s) as [o | ] eqn:Ho; [ | simpl; rewrite Ho; repeat split ].
  destruct (nonzero (reconnectTimeout o)); simpl; rewrite Ho; repeat split.
Qed.

Lemma closeConnection_frame (s : t) :
  same_config s (snd (closeConnection s))
  /\ session (snd (closeConnection s)) = session s
  /\ errors (snd (closeConnection s)) = errors s
  /\ fst (closeConnection s) = Ok tt
  /\ ApiConnection.state (connection (snd (closeConnection s))) = ApiConnection.Closed.
Proof.
  destruct (clearReconnectInterval_shape s) as (tm & Hclear).
  unfold closeConnection, bind, same_config. rewrite Hclear. simpl. repeat split.
Qed.

Lemma exchange_decided (env : Env) (s : t) :
  exchange_fails env s \/ exists token, exchange_yields env s token.
Proof.
  unfold exchange_fails, exchange_yields, no_data.
  destruct (truthy (http (endpoints s))); [ | now left; left ].
  destruct (post_session env) as [ | | | [hash | ]] eqn:Hpost;
    try (left; right; left; tauto).
  destruct (signPersonalMessage env hash) as [signature | e] eqn:Hsign.
  - destruct (put_session env hash (device_address s) signature) as [ | | | [token | ]]
      eqn:Hput.
    1, 2, 3, 5: left; right; right; exists hash; (split; [ reflexivity | ]); right;
      exists signature; (split; [ exact Hsign | ]); rewrite Hput; tauto.
    right. exists token. split; [ reflexivity | ]. now exists hash, signature.
  - left; right; right. exists hash. split; [ reflexivity | ]. left. now exists e.
Qed.

(** A run of [createSession] whose exchange goes through. *)
Lemma createSession_yielded (env : Env) (s : t) (token : option string) :
  exchange_yields env s token ->
  createSession env s
  = openConnection (connects env)
      (with_session
         (fun _ =>
            {| ApiSession.attributes :=
                 {| ApiSession.state := ApiSession.Verified;
                    ApiSession.token := token |};
               ApiSession.assigned :=
                 (ApiSession.assigned (session s)
                  ++ [ApiSession.Verifying; ApiSession.Verified])%list |}) s).
Proof.
  intros (Hhttp & hash & signature & Hpost & Hsign & Hput).
  unfold createSession. generalize (openConnection (connects env)). intros oc.
  cbv beta iota delta [try_catch bind modify createSessionHash
    verifySessionHash signHash call get throw ret]. simpl.
  rewrite Hhttp, Hpost. simpl. rewrite Hsign. simpl. rewrite Hhttp. simpl.
  rewrite Hput. simpl. unfold with_session, ApiSession.setAsVerified,
    ApiSession.setAsVerifying, ApiSession.set_attributes. simpl.
  now rewrite <- app_assoc.
Qed.

Lemma createSession_succeeded (env : Env) (s : t) (token : string) :
  exchange_succeeds env s token ->
  createSession env s
  = openConnection (connects env)
      (with_session
         (fun _ =>
            {| ApiSession.attributes :=
                 {| ApiSession.state := ApiSession.Verified;
                    ApiSession.token := Some token |};
               ApiSession.assigned :=
                 (ApiSession.assigned (session s)
                  ++ [ApiSession.Verifying; ApiSession.Verified])%list |}) s).
Proof. apply createSession_yielded. Qed.

Lemma exchange_exclusive (env : Env) (s : t) (token : option string) :
  exchange_yields env s token -> ~ exchange_fails env s.
Proof.
  intros (Hhttp & hash & signature & Hpost & Hsign & Hput)
    [Hf | [Hf | (hash' & Hh & Hf)]].
  - rewrite Hhttp in Hf. discriminate Hf.
  - rewrite Hpost in Hf. destruct Hf as [Hf | [Hf | [Hf | Hf]]]; discriminate Hf.
  - rewrite Hpost in Hh. injection Hh as <-.
    destruct Hf as [(e & He) | (sg & Hsg & Hf)].
    + rewrite Hsign in He. discriminate He.
    + rewrite Hsign in Hsg. injection Hsg as <-. rewrite Hput in Hf.
      destruct Hf as [Hf | [Hf | [Hf | Hf]]]; discriminate Hf.
Qed.

Lemma createSession_outcome (env : Env) (s : t) :
  (exchange_fails env s
   /\ ApiSession.attributes (session (snd (createSession env s)))
      = {| ApiSession.state := ApiSession.Destroyed; ApiSession.token := None |})
  \/ (exists token,
        exchange_yields env s token
        /\ ApiSession.attributes (session (snd (createSession env s)))
           = {| ApiSession.state := ApiSession.Verified;
                ApiSession.token := token |}).
Proof.
  destruct (exchange_decided env s) as [Hfails | (token & Hok)].
  - left. split; [ exact Hfails | ].
    destruct (createSession_exchange env s) as (session' & Heq & _ & Hd & _).
    rewrite Heq, openConnection_session. now apply Hd.
  - right. exists token. split; [ exact Hok | ].
    rewrite (createSession_yielded env s token Hok).
    now rewrite openConnection_session.
Qed.

(** X2: whatever the backend and the device do, [createSession] leaves the
    session [Destroyed] without a token when a step of the exchange fails
    (no endpoint, a reply that throws or has no data, a signing that
    throws), and [Verified] when every step goes through, with the member
    [token] of the verification's data for its token: that token, or none
    when the data has no such member.  It never leaves it [Verifying], the
    two cases exclude each other, and an observer of [state$] sees
    [Verifying] and then that final state. *)
Theorem createSession_settles (env : Env) (s : t) :
  let after := session (snd (createSession env s)) in
  ((exchange_fails env s
    /\ ApiSession.attributes after
       = {| ApiSession.state := ApiSession.Destroyed; ApiSession.token := None |})
   \/ (exists token,
         exchange_yields env s token
         /\ ~ exchange_fails env s
         /\ ApiSession.attributes after
            = {| ApiSession.state := ApiSession.Verified;
                 ApiSession.token := token |}))
  /\ ApiSession.assigned after
     = (ApiSession.assigned (session s)
        ++ [ApiSession.Verifying; ApiSession.state (ApiSession.attributes after)])%list
  /\ ApiSession.state (ApiSession.attributes after) <> ApiSession.Verifying.
Proof.
  cbv zeta.
  destruct (createSession_exchange env s) as (session' & Heq & Hlog & Hd & _).
  assert (Hs : session (snd (createSession env s)) = session')
    by (rewrite Heq; apply openConnection_session).
  rewrite Hs. split; [ | split; [ exact Hlog | ] ].
  - rewrite <- Hs.
    destruct (createSession_outcome env s) as [Hfailed | (token & Hok & Hv)].
    + now left.
    + right. exists token. split; [ exact Hok | ].
      split; [ now apply (exchange_exclusive env s token) | exact Hv ].
  - rewrite <- Hs.
    destruct (createSession_outcome env s) as [[_ ->] | (token & _ & ->)]; discriminate.
Qed.

Lemma createSession_frame (env : Env) (s : t) :
  same_config s (snd (createSession env s)).
Proof.
  destruct (createSession_exchange env s) as (session' & -> & _).
  apply (openConnection_frame (connects env) (with_session (fun _ => session') s)).
Qed.

Lemma destroySession_frame (s : t) :
  same_config s (snd (destroySession s))
  /\ fst (destroySession s) = Ok tt
  /\ ApiSession.attributes (session (snd (destroySession s)))
     = {| ApiSession.state := ApiSession.Destroyed; ApiSession.token := None |}
  /\ ApiConnection.state (connection (snd (destroySession s))) = ApiConnection.Closed.
Proof.
  unfold destroySession, bind, modify.
  destruct (closeConnection_frame (with_session ApiSession.setAsDestroyed s))
    as (Hc & Hs & _ & Hr & Hclosed).
  split; [ exact Hc | ]. split; [ exact Hr | ]. split; [ now rewrite Hs | exact Hclosed ].
Qed.

Lemma autoAuth_frame (env : Env) (s : t) :
  same_config s (snd (autoAuth env s)).
Proof.
  unfold autoAuth, bind, get. destruct (canAuth s).
  - destruct (wrapAsync_state (createSession env) s) as [_ [-> | (e & _ & ->)]];
      apply createSession_frame.
  - apply destroySession_frame.
Qed.

Lemma step_endpoints_inv (op : Op) (s : t) :
  endpoints_inv s -> endpoints_inv (step encodeApiEvent s op).
Proof.
  assert (Hkeep : forall s' : t, same_config s s' -> endpoints_inv s -> endpoints_inv s').
  { unfold endpoints_inv. intros s' (Ho & He & _) Hinv. now rewrite Ho, He. }
  intros Hinv. unfold step.
  destruct op as [ok | | env | | env e | ok id | event | tr]; simpl.
  - apply Hkeep; [ apply openConnection_frame | exact Hinv ].
  - apply Hkeep; [ apply closeConnection_frame | exact Hinv ].
  - apply Hkeep; [ apply createSession_frame | exact Hinv ].
  - apply Hkeep; [ apply destroySession_frame | exact Hinv ].
  - destruct e as [o | a]; unfold emit, on_options, bind, modify.
    + destruct (autoAuth_frame env
                  (with_session ApiSession.setAsDestroyed
                     (with_endpoints
                        {| ws := buildEndpoint ws_ (options (with_options o s));
                           http := buildEndpoint http_ (options (with_options o s)) |}
                        (with_options o s)))) as (Ho & He & _).
      unfold endpoints_inv. rewrite Ho, He. reflexivity.
    + destruct (autoAuth_frame env (with_device_address a s)) as (Ho & He & _).
      unfold endpoints_inv. rewrite Ho, He. exact Hinv.
  - unfold tick, bind, get, modify, ret.
    destruct (bool_decide (id ∈ Timers.active (timers s))); [ | exact Hinv ].
    destruct (ApiConnection.state (connection s)); exact Hinv.
  - unfold sendEvent, bind, get, throw, zoom, ApiConnection.send.
    destruct (ApiConnection.opened (connection s)) eqn:Ho; simpl; [ | exact Hinv ].
    rewrite Ho. exact Hinv.
  - exact Hinv.
Qed.

Lemma run_endpoints_inv (ops : list Op) (s : t) :
  endpoints_inv s -> endpoints_inv (run encodeApiEvent ops s).
Proof.
  revert s. induction ops as [ | op ops IH ]; intros s Hinv; simpl.
  - exact Hinv.
  - apply IH. now apply step_endpoints_inv.
Qed.

Lemma endpoints_inv_truthy (s : t) :
  endpoints_inv s ->
  truthy (ws (endpoints s)) = bool_decide (options s <> None)
  /\ truthy (http (endpoints s)) = bool_decide (options s <> None).
Proof.
  unfold endpoints_inv. intros ->. cbn [ws http].
  destruct (options s) as [o | ].
  - rewrite !buildEndpoint_truthy. now rewrite bool_decide_eq_true_2.
  - split; reflexivity.
Qed.

(** X1: in every state the [Api] reaches, the two endpoints are the ones
    built from the current options: both are null without options and
    both are non-empty with them.  So a REST call throws
    [errApiUnknownHttpEndpoint] exactly when there are no options.  With
    options it turns a transport error into a null result, throws a
    [SyntaxError] for a body that is not JSON and a [TypeError] for the
    JSON body [null], and hands back the [data] of any other body.  It
    never writes the state. *)
Theorem endpoints_follow_options (ops : list Op) :
  let s := run encodeApiEvent ops create in
  endpoints s = {| http := buildEndpoint http_ (options s);
                   ws := buildEndpoint ws_ (options s) |}
  /\ truthy (ws (endpoints s)) = bool_decide (options s <> None)
  /\ truthy (http (endpoints s)) = bool_decide (options s <> None)
  /\ (forall (D : Type) (reply : Fetched D),
        snd (call reply s) = s
        /\ (fst (call reply s) = Throw errApiUnknownHttpEndpoint <-> options s = None)
        /\ (options s <> None ->
            fst (call reply s)
            = match reply with
              | NetworkError => Ok None
              | Malformed => Throw SyntaxError
              | NullBody => Throw TypeError
              | Body data => Ok data
              end)).
Proof.
  intros s.
  assert (Hinv : endpoints_inv s) by (apply run_endpoints_inv; reflexivity).
  destruct (endpoints_inv_truthy s Hinv) as [Hws Hhttp].
  split; [ exact Hinv | ]. split; [ exact Hws | ]. split; [ exact Hhttp | ].
  intros D reply. unfold call, bind, get, throw, ret. rewrite Hhttp.
  destruct (options s) as [o | ].
  - rewrite bool_decide_eq_true_2 by discriminate. simpl.
    split; [ now destruct reply | ]. split.
    + split; [ | discriminate ]. destruct reply; discriminate.
    + intros _. now destruct reply.
  - cbn. split; [ reflexivity | ]. split; [ tauto | ]. intros H. now contradiction H.
Qed.

(** X3: on a reachable state with options, a run of [createSession] whose
    exchange goes through returns normally and emits no error; the session
    is [Verified] with the backend's token; the channel is opened once
    more, against the ws endpoint and with that token, and is [Opened] or
    [Closed] as the attempt went; and exactly one interval is armed when a
    reconnect timeout is configured, none otherwise. *)
Theorem createSession_opens_with_token
    (ops : list Op) (env : Env) (token : string) (o : IApiOptions) :
  let s := run encodeApiEvent ops create in
  let out := createSession env s in
  exchange_succeeds env s token ->
  options s = Some o ->
  fst out = Ok tt
  /\ errors (snd out) = errors s
  /\ ApiSession.attributes (session (snd out))
     = {| ApiSession.state := ApiSession.Verified; ApiSession.token := Some token |}
  /\ ApiConnection.opens (connection (snd out))
     = (ApiConnection.opens (connection s) ++ [(ws (endpoints s), Some token)])%list
  /\ ApiConnection.state (connection (snd out))
     = (if connects env then ApiConnection.Opened else ApiConnection.Closed)
  /\ size (Timers.active (timers (snd out)))
     = (if nonzero (reconnectTimeout o) then 1 else 0).
Proof.
  intros s out Hok Ho. subst out.
  assert (Hinv : timer_inv s) by (apply run_timer_inv, create_timer_inv).
  assert (Hend : endpoints_inv s) by (apply run_endpoints_inv; reflexivity).
  destruct (endpoints_inv_truthy s Hend) as [Hws _].
  rewrite Ho, bool_decide_eq_true_2 in Hws by discriminate.
  rewrite (createSession_succeeded env s token Hok).
  set (s1 := with_session _ s).
  assert (Hinv1 : timer_inv s1) by (now apply (timer_inv_ext s)).
  destruct (openConnection_cases (connects env) s1 Hinv1) as (tm & Hact & _ & ->).
  subst s1. cbn [endpoints with_session session options]. rewrite Hws, Ho.
  unfold ApiSession.verified. cbn [ApiSession.attributes ApiSession.state negb].
  rewrite bool_decide_eq_true_2 by reflexivity. cbn [negb].
  destruct (nonzero (reconnectTimeout o)).
  - split; [ reflexivity | ]. split; [ reflexivity | ]. split; [ reflexivity | ].
    split; [ reflexivity | ]. split; [ now destruct (connects env) | ].
    cbn [snd]. rewrite armed_active by exact Hact. apply size_singleton.
  - split; [ reflexivity | ]. split; [ reflexivity | ]. split; [ reflexivity | ].
    split; [ reflexivity | ]. split; [ now destruct (connects env) | ].
    cbn [snd open timers with_connection with_timers]. rewrite Hact. apply size_empty.
Qed.

Lemma step_session_invariant (op : Op) (s : t) :
  api_call op ->
  ApiSession.invariant (session s) ->
  ApiSession.invariant (session (step encodeApiEvent s op)).
Proof.
  assert (Hdestroyed : forall x : ApiSession.t,
             ApiSession.attributes x
             = {| ApiSession.state := ApiSession.Destroyed; ApiSession.token := None |} ->
             ApiSession.invariant x).
  { intros x Hx. unfold ApiSession.invariant. rewrite Hx. simpl. congruence. }
  assert (Hcreated : forall env s0, ApiSession.invariant (session (snd (createSession env s0)))).
  { intros env s0. destruct (createSession_outcome env s0) as [[_ Hd] | (tok & _ & Hv)].
    - now apply Hdestroyed.
    - unfold ApiSession.invariant. now rewrite Hv. }
  assert (Hauto : forall env s0, ApiSession.invariant (session (snd (autoAuth env s0)))).
  { intros env s0. unfold autoAuth, bind, get. destruct (canAuth s0).
    - destruct (wrapAsync_state (createSession env) s0) as [_ [-> | (e & _ & ->)]];
        apply Hcreated.
    - apply Hdestroyed, destroySession_frame. }
  intros Hcall Hinv. unfold step.
  destruct op as [ok | | env | | env e | ok id | event | tr]; simpl.
  - now rewrite openConnection_session.
  - destruct (closeConnection_frame s) as (_ & -> & _). exact Hinv.
  - apply Hcreated.
  - apply Hdestroyed, destroySession_frame.
  - destruct e as [o | a]; unfold emit, on_options, bind, modify; apply Hauto.
  - unfold tick, bind, get, modify, ret.
    destruct (bool_decide (id ∈ Timers.active (timers s))); [ | exact Hinv ].
    destruct (ApiConnection.state (connection s)); exact Hinv.
  - unfold sendEvent, bind, get, throw, zoom, ApiConnection.send.
    destruct (ApiConnection.opened (connection s)) eqn:Ho; simpl; [ | exact Hinv ].
    rewrite Ho. exact Hinv.
  - now apply apply_default_invariant.
Qed.

(** X4: through the calls of the [Api] (its methods, its subscribers, its
    timer, and the session's transitions as the [Api] makes them, with
    [setAsVerifying] at its default argument) the session never holds a
    token unless it is [Verified]. *)
Theorem api_keeps_session_invariant (ops : list Op) :
  Forall api_call ops ->
  ApiSession.invariant (session (run encodeApiEvent ops create)).
Proof.
  assert (Hgen : forall s, ApiSession.invariant (session s) ->
                           Forall api_call ops ->
                           ApiSession.invariant (session (run encodeApiEvent ops s))).
  { induction ops as [ | op ops' IH ]; intros s Hinv Hall; simpl.
    - exact Hinv.
    - inversion Hall as [ | ? ? Hop Hrest ]; subst.
      apply IH; [ now apply step_session_invariant | exact Hrest ]. }
  intros Hall. apply Hgen; [ apply create_invariant | exact Hall ].
Qed.

Lemma tick_disarmed (ok : bool) (id : positive) (s : t) :
  Timers.active (timers s) = ∅ -> tick ok id s = (Ok tt, s).
Proof.
  intros Hact. unfold tick, bind, get, ret. rewrite Hact.
  rewrite bool_decide_eq_false_2 by apply not_elem_of_empty. reflexivity.
Qed.

(** X5: from every reachable state [destroySession] returns normally and
    leaves the session [Destroyed] without a token, the connection
    [Closed] and no interval armed; after it, and after a
    [closeConnection], the firing of any interval that was queued changes
    nothing. *)
Theorem destroySession_disarms (ops : list Op) (ok : bool) (id : positive) :
  let s := run encodeApiEvent ops create in
  let destroyed := snd (destroySession s) in
  let closed := snd (closeConnection s) in
  fst (destroySession s) = Ok tt
  /\ ApiSession.attributes (session destroyed)
     = {| ApiSession.state := ApiSession.Destroyed; ApiSession.token := None |}
  /\ ApiConnection.state (connection destroyed) = ApiConnection.Closed
  /\ Timers.active (timers destroyed) = ∅
  /\ tick ok id destroyed = (Ok tt, destroyed)
  /\ ApiConnection.state (connection closed) = ApiConnection.Closed
  /\ tick ok id closed = (Ok tt, closed).
Proof.
  intros s destroyed closed.
  assert (Hinv : timer_inv s) by (apply run_timer_inv, create_timer_inv).
  destruct (destroySession_frame s) as (_ & Hr & Hd & Hc).
  assert (Hact : Timers.active (timers destroyed) = ∅).
  { subst destroyed. unfold destroySession, bind, modify.
    apply closeConnection_active. now apply (timer_inv_ext s). }
  assert (Hact' : Timers.active (timers closed) = ∅)
    by (now apply closeConnection_active).
  repeat split; try assumption.
  - now apply tick_disarmed.
  - apply closeConnection_frame.
  - now apply tick_disarmed.
Qed.

(** X6: on every reachable state [openConnection] throws exactly when there
    are no options, and then it throws [errApiUnknownWsEndpoint]; it never
    writes the session; and it opens the channel, against the ws endpoint
    and with the session's token, exactly when there are options and the
    session is verified, leaving the connection alone otherwise. *)
Theorem openConnection_needs_verified_session (ops : list Op) (ok : bool) :
  let s := run encodeApiEvent ops create in
  let out := openConnection ok s in
  session (snd out) = session s
  /\ fst out = (if bool_decide (options s <> None)
                then Ok tt else Throw errApiUnknownWsEndpoint)
  /\ connection (snd out)
     = (if bool_decide (options s <> None) && ApiSession.verified (session s)
        then ApiConnection.open ok (ws (endpoints s))
               (ApiSession.token (ApiSession.attributes (session s))) (connection s)
        else connection s).
Proof.
  intros s out. subst out.
  assert (Hend : endpoints_inv s) by (apply run_endpoints_inv; reflexivity).
  destruct (endpoints_inv_truthy s Hend) as [Hws _].
  split; [ apply openConnection_session | ].
  destruct (openConnection_shape ok s) as (tm & ->). rewrite Hws.
  destruct (options s) as [o | ].
  - rewrite bool_decide_eq_true_2 by discriminate. cbn.
    destruct (ApiSession.verified (session s)); cbn; [ | split; reflexivity ].
    destruct (nonzero (reconnectTimeout o)); split; reflexivity.
  - cbn. split; reflexivity.
Qed.

End ApiRunProperties.

(** Witnesses for the runs of the Api. *)
Section ApiRunExamples.

Import Api Run.

Lemma createSession_opens_with_token_witness :
  let s := run Scenario.frame_of
             [Emit Scenario.verify_unreachable (AddressChanged (Some "0xA1"));
              Emit Scenario.verify_unreachable (OptionsChanged (Some Scenario.options))]
             create in
  ApiSession.attributes (session (snd (createSession Scenario.backend_up s)))
  = {| ApiSession.state := ApiSession.Verified; ApiSession.token := Some "token-1" |}.
Proof.
  destruct (createSession_opens_with_token Scenario.frame_of
              [Emit Scenario.verify_unreachable (AddressChanged (Some "0xA1"));
               Emit Scenario.verify_unreachable (OptionsChanged (Some Scenario.options))]
              Scenario.backend_up "token-1" Scenario.options)
    as (_ & _ & Hsession & _).
  - split; [ reflexivity | ].
    exists (Some Scenario.hash), (Scenario.hash ++ [Byte.x1b])%list.
    repeat split; reflexivity.
  - reflexivity.
  - exact Hsession.
Defined.

Lemma api_keeps_session_invariant_witness :
  ApiSession.invariant
    (session (run Scenario.frame_of
                [Emit Scenario.backend_up (AddressChanged (Some "0xA1"));
                 Emit Scenario.backend_up (OptionsChanged (Some Scenario.options));
                 Session (ApiSession.SetAsVerifying None);
                 DestroySession]
                create)).
Proof.
  apply (api_keeps_session_invariant Scenario.frame_of
           [Emit Scenario.backend_up (AddressChanged (Some "0xA1"));
            Emit Scenario.backend_up (OptionsChanged (Some Scenario.options));
            Session (ApiSession.SetAsVerifying None);
            DestroySession]).
  repeat constructor.
Defined.

End ApiRunExamples.

(** ** More on the Sdk: inbound events, accounts and the linker *)

Section SdkEventProperties.

Import ApiEvents Sdk.

Variable encodeApiEvent : IApiEvent -> Buffer.
Variable recoverAddressFromPersonalMessage : Buffer -> string -> option string.
Variable muted_emits : bool -> bool -> bool.

(** X7: the events the subscriber has no work for leave the Sdk as it was:
    an account-device event (added, updated, removed) that has a payload,
    and an event of an outbound-only kind.  The same account-device events
    and an account update without a payload put one [TypeError] on
    [error$] and change nothing else; a signed secure action without a
    payload does so too, after it asked the relay to mute the connection.
    The subscriber itself never throws. *)
Theorem unhandled_events_leave_state (env : Env) (event : IApiEvent) (s : t) :
  let out := on_event encodeApiEvent recoverAddressFromPersonalMessage muted_emits
               env event s in
  (exists r, fst out = Ok r)
  /\ (type event = MuteConnection \/ type event = UnMuteConnection ->
      out = (Ok (Some tt), s))
  /\ (type event = AccountDeviceAdded \/ type event = AccountDeviceUpdated
      \/ type event = AccountDeviceRemoved ->
      out = match payload event with
            | Some _ => (Ok (Some tt), s)
            | None => (Ok None, emit_error TypeError s)
            end)
  /\ (type event = AccountUpdated -> payload event = None ->
      out = (Ok None, emit_error TypeError s))
  /\ (type event = SignedSecureAction -> payload event = None ->
      out = (Ok None,
             emit_error TypeError (requested (mute_frame encodeApiEvent) s))).
Proof.
  cbv zeta. split.
  - unfold on_event, wrapTAsync, try_catch, bind, ret, modify.
    match goal with |- context [match ?m s with _ => _ end] => destruct (m s) as [[a | e] s'] end;
      eexists; reflexivity.
  - destruct event as [ty pl]. cbn [type payload].
    split; [ | split; [ | split ] ].
    + intros [-> | ->]; reflexivity.
    + intros [-> | [-> | ->]]; destruct pl; reflexivity.
    + intros -> ->. reflexivity.
    + intros -> ->. unfold on_event. cbn [type payload].
      apply wrapTAsync_throw.
      unfold on_SignedSecureAction, try_finally, resolve, destroySecureAction.
      cbv beta iota delta [bind destructure throw]. now rewrite muteApiConnection_spec.
Qed.

(** X8: a connection-muted event sets the connection's muted flag, and the
    outstanding challenge is cleared exactly when [muted$] delivers the new
    value; a connection-unmuted event clears the flag and never touches the
    challenge.  Neither sends a frame, emits an error or an action. *)
Theorem muted_events_mirror_flag (env : Env) (pl : option Payload) (s : t) :
  let old := ApiConnection.muted (Api.connection (api s)) in
  let muted :=
    on_event encodeApiEvent recoverAddressFromPersonalMessage muted_emits env
      {| type := ConnectionMuted; payload := pl |} s in
  let unmuted :=
    on_event encodeApiEvent recoverAddressFromPersonalMessage muted_emits env
      {| type := ConnectionUnMuted; payload := pl |} s in
  fst muted = Ok (Some tt)
  /\ ApiConnection.muted (Api.connection (api (snd muted))) = true
  /\ secureAction (snd muted)
     = (if muted_emits old true then None else secureAction s)
  /\ fst unmuted = Ok (Some tt)
  /\ ApiConnection.muted (Api.connection (api (snd unmuted))) = false
  /\ secureAction (snd unmuted) = secureAction s
  /\ (forall out, out = snd muted \/ out = snd unmuted ->
        ApiConnection.sent (Api.connection (api out))
        = ApiConnection.sent (Api.connection (api s))
        /\ ApiConnection.state (Api.connection (api out))
           = ApiConnection.state (Api.connection (api s))
        /\ errors out = errors s
        /\ incomingAction out = incomingAction s
        /\ account out = account s
        /\ accountDevice out = accountDevice s).
Proof.
  cbv zeta. unfold on_event. cbn [type].
  cbv beta iota delta [wrapTAsync try_catch bind ret get modify set_connection_muted
                         on_muted].
  cbn [api with_api].
  destruct (muted_emits (ApiConnection.muted (Api.connection (api s))) true);
    destruct (muted_emits (ApiConnection.muted (Api.connection (api s))) false);
    cbn; repeat split; intros; destruct H as [-> | ->]; reflexivity.
Qed.

Lemma account_update_dropped (env : Env) (name : string) (s : t) :
  account_ensName s <> Some name ->
  on_event encodeApiEvent recoverAddressFromPersonalMessage muted_emits env
    {| type := AccountUpdated; payload := Some (IAccount name) |} s
  = (Ok (Some tt), s).
Proof.
  intros Hother. unfold on_event. cbn [type payload].
  apply wrapTAsync_ok. unfold on_AccountUpdated.
  cbv beta iota delta [bind destructure ret get payload_ensName].
  now rewrite bool_decide_eq_false_2.
Qed.

(** X9: an account update that names another account than the tracked one
    (or comes when none is tracked) is dropped before any request is made:
    the Sdk is left as it was, whatever the backend would have answered,
    and no error is emitted even without an http endpoint. *)
Theorem account_update_for_other_account (env : Env) (name : string) (s : t) :
  account_ensName s <> Some name ->
  on_event encodeApiEvent recoverAddressFromPersonalMessage muted_emits env
    {| type := AccountUpdated; payload := Some (IAccount name) |} s
  = (Ok (Some tt), s).
Proof.
  intros Hother. now apply account_update_dropped.
Qed.

End SdkEventProperties.

Section SdkEventExamples.

Import ApiEvents Sdk.

Lemma unhandled_events_leave_state_witness :
  on_event Scenario.frame_of Scenario.recover Scenario.on_change Scenario.no_backend
    {| type := AccountDeviceAdded;
       payload := Some (IAccountDevice "alice.blockid.test" "0xB2") |}
    Scenario.challenged
  = (Ok (Some tt), Scenario.challenged).
Proof.
  destruct (unhandled_events_leave_state Scenario.frame_of Scenario.recover
              Scenario.on_change Scenario.no_backend
              {| type := AccountDeviceAdded;
                 payload := Some (IAccountDevice "alice.blockid.test" "0xB2") |}
              Scenario.challenged) as (_ & _ & Hdevice & _).
  apply Hdevice. left. reflexivity.
Defined.

Lemma account_update_for_other_account_witness :
  on_event Scenario.frame_of Scenario.recover Scenario.on_change
    Scenario.knows_alice_only
    {| type := AccountUpdated; payload := Some (IAccount "alice.blockid.test") |}
    Scenario.sdk_offline
  = (Ok (Some tt), Scenario.sdk_offline).
Proof.
  apply (account_update_for_other_account Scenario.frame_of Scenario.recover
           Scenario.on_change Scenario.knows_alice_only "alice.blockid.test"
           Scenario.sdk_offline).
  simpl. discriminate.
Defined.

End SdkEventExamples.

(** ** Accounts *)

Section AccountProperties.

Import ApiEvents Sdk.

Variable ILinkerActionUrls : Type.
Variable buildActionUrls : ILinkerAction -> ILinkerActionUrls.
Variable appName : option string.



End AccountProperties.

Section ResetProperties.

Import ApiEvents Sdk.

Variable encodeApiEvent : IApiEvent -> Buffer.
Variable recoverAddressFromPersonalMessage : Buffer -> string -> option string.
Variable muted_emits : bool -> bool -> bool.

(** X12: [resetAccount] clears the attributes of the account and of the
    account device and nothing else; after it no account is tracked, so an
    account update for any name is dropped without a request, whatever the
    backend would answer. *)
Theorem resetAccount_stops_updates (env : Env) (name : string) (s : t) :
  let reset := snd (resetAccount s) in
  fst (resetAccount s) = Ok tt
  /\ account reset = None
  /\ accountDevice reset = None
  /\ api reset = api s
  /\ secureAction reset = secureAction s
  /\ errors reset = errors s
  /\ incomingAction reset = incomingAction s
  /\ on_event encodeApiEvent recoverAddressFromPersonalMessage muted_emits env
       {| type := AccountUpdated; payload := Some (IAccount name) |} reset
     = (Ok (Some tt), reset).
Proof.
  cbv zeta. repeat (split; [ reflexivity | ]).
  apply account_update_dropped. discriminate.
Qed.

End ResetProperties.

Section AccountExamples.

Import Sdk.


End AccountExamples.

(** ** The other device of the secure link *)

Section LinkerProperties.

Import ApiEvents Sdk.

Variable encodeApiEvent : IApiEvent -> Buffer.
Variable anyToHex : Buffer -> string.
Variable recoverAddressFromPersonalMessage : Buffer -> string -> option string.
Variable buildActionUrl : ILinkerAction -> LinkerActionSenderTypes -> string.
Variable muted_emits : bool -> bool -> bool.
Variable signPersonalMessage : option Buffer -> Res Buffer.

Lemma on_acceptedAction_secure (a : ILinkerAction) (sd : Sender) (s : t) :
  action_type a = Secure ->
  sender a = Some sd ->
  sender_type sd = Device ->
  on_acceptedAction encodeApiEvent anyToHex signPersonalMessage (Some a) s
  = match signPersonalMessage (payload_hash (action_payload a)) with
    | Ok signature =>
        if ApiConnection.opened (Api.connection (api s))
        then (Ok (Some tt),
              with_api (Api.with_connection
                          (ApiConnection.transmitted
                             (encodeApiEvent (signed_event anyToHex (sender_data sd) signature))
                             (Api.connection (api s))) (api s)) s)
        else (Ok None, emit_error errApiInvalidConnectionState s)
    | Throw e => (Ok None, emit_error e s)
    end.
Proof.
  intros Htype Hsender Hdevice. unfold on_acceptedAction.
  rewrite Htype, Hsender, Hdevice.
  destruct (signPersonalMessage (payload_hash (action_payload a))) as [signature | e].
  - destruct (ApiConnection.opened (Api.connection (api s))) eqn:Ho.
    + apply wrapTAsync_ok. unfold on_api, zoom, Api.signSecureAction.
      now rewrite (sendEvent_opened encodeApiEvent _ (api s) Ho).
    + erewrite wrapTAsync_throw.
      * reflexivity.
      * unfold on_api, zoom, Api.signSecureAction.
        rewrite (sendEvent_closed encodeApiEvent _ (api s) Ho).
        now rewrite with_api_id.
  - now apply wrapTAsync_throw.
Qed.

Lemma on_acceptedAction_other_sender (a : ILinkerAction) (sd : Sender) (s : t) :
  action_type a = Secure ->
  sender a = Some sd ->
  sender_type sd <> Device ->
  on_acceptedAction encodeApiEvent anyToHex signPersonalMessage (Some a) s
  = (Ok (Some tt), s).
Proof.
  intros Htype Hsender Hother. unfold on_acceptedAction. rewrite Htype, Hsender.
  destruct (sender_type sd) as [ | name ]; [ congruence | ].
  now apply wrapTAsync_ok.
Qed.

(** X13: the subscriber of accepted link actions never throws and never
    writes the challenge slot, the emitted actions or the account.  It
    does nothing for no action, for the kinds other than [Secure], and for
    a [Secure] action whose sender is not of the type [Device].  For a
    [Secure] action whose sender is of the type [Device] it has the device
    sign the nonce of the payload and, on an opened connection, sends one
    signed-secure-action event whose recipient is the sender's data and
    whose signature is the hex of the device's signature; a signing
    failure or a connection that is not opened puts one error on [error$]
    and sends nothing, and so does a [Secure] action without a sender. *)
Theorem acceptedAction_signs_for_sender (action : option ILinkerAction) (s : t) :
  let out := on_acceptedAction encodeApiEvent anyToHex signPersonalMessage action s in
  (exists r, fst out = Ok r)
  /\ secureAction (snd out) = secureAction s
  /\ incomingAction (snd out) = incomingAction s
  /\ account (snd out) = account s
  /\ accountDevice (snd out) = accountDevice s
  /\ (action = None
      \/ (exists a, action = Some a /\ action_type a <> Secure)
      \/ (exists a sd, action = Some a /\ sender a = Some sd
                       /\ sender_type sd <> Device) ->
      snd out = s)
  /\ (forall a, action = Some a -> action_type a = Secure -> sender a = None ->
        out = (Ok None, emit_error TypeError s))
  /\ (forall a sd, action = Some a -> action_type a = Secure -> sender a = Some sd ->
        sender_type sd = Device ->
        out
        = match signPersonalMessage (payload_hash (action_payload a)) with
          | Ok signature =>
              if ApiConnection.opened (Api.connection (api s))
              then (Ok (Some tt),
                    with_api (Api.with_connection
                                (ApiConnection.transmitted
                                   (encodeApiEvent
                                      {| type := SignedSecureAction;
                                         payload :=
                                           Some (ISignedSecureAction Absent (sender_data sd)
                                                   (anyToHex signature)) |})
                                   (Api.connection (api s))) (api s)) s)
              else (Ok None, emit_error errApiInvalidConnectionState s)
          | Throw e => (Ok None, emit_error e s)
          end).
Proof.
  cbv zeta.
  assert (Hsecure : forall a sd, action = Some a -> action_type a = Secure ->
                                 sender a = Some sd -> sender_type sd = Device -> _)
    by (intros a sd -> Ht Hs Hd; exact (on_acceptedAction_secure a sd s Ht Hs Hd)).
  assert (Hmissing : forall a, action = Some a -> action_type a = Secure ->
                               sender a = None ->
                               on_acceptedAction encodeApiEvent anyToHex
                                 signPersonalMessage action s
                               = (Ok None, emit_error TypeError s)).
  { intros a -> Ht Hs. unfold on_acceptedAction. rewrite Ht, Hs.
    now apply wrapTAsync_throw. }
  assert (Hother : action = None
                   \/ (exists a, action = Some a /\ action_type a <> Secure)
                   \/ (exists a sd, action = Some a /\ sender a = Some sd
                                    /\ sender_type sd <> Device) ->
                   on_acceptedAction encodeApiEvent anyToHex signPersonalMessage action s
                   = (Ok None, s)
                   \/ on_acceptedAction encodeApiEvent anyToHex signPersonalMessage
                        action s
                      = (Ok (Some tt), s)).
  { intros [-> | [(a & -> & Ht) | (a & sd & -> & Hs & Hd)]]; [ now left | right | right ].
    - unfold on_acceptedAction. destruct (action_type a); try congruence;
        now apply wrapTAsync_ok.
    - destruct (action_type a) eqn:Ht.
      + unfold on_acceptedAction. rewrite Ht. now apply wrapTAsync_ok.
      + unfold on_acceptedAction. rewrite Ht. now apply wrapTAsync_ok.
      + now apply (on_acceptedAction_other_sender a sd s Ht Hs Hd). }
  assert (Hshape : (exists r, fst (on_acceptedAction encodeApiEvent anyToHex
                                     signPersonalMessage action s) = Ok r)
                   /\ secureAction (snd (on_acceptedAction encodeApiEvent anyToHex
                                           signPersonalMessage action s))
                      = secureAction s
                   /\ incomingAction (snd (on_acceptedAction encodeApiEvent anyToHex
                                             signPersonalMessage action s))
                      = incomingAction s
                   /\ account (snd (on_acceptedAction encodeApiEvent anyToHex
                                      signPersonalMessage action s))
                      = account s
                   /\ accountDevice (snd (on_acceptedAction encodeApiEvent anyToHex
                                            signPersonalMessage action s))
                      = accountDevice s).
  { destruct action as [a | ].
    2: { destruct Hother as [-> | ->]; [ now left | | ]; repeat split; now eexists. }
    destruct (action_type a) eqn:Ht.
    1, 2: destruct Hother as [-> | ->];
      [ right; left; exists a; split; [ reflexivity | congruence ] | | ];
      repeat split; now eexists.
    destruct (sender a) as [sd | ] eqn:Hs.
    - destruct (sender_type sd) as [ | name ] eqn:Hd.
      + rewrite (Hsecure a sd eq_refl Ht Hs Hd).
        destruct (signPersonalMessage (payload_hash (action_payload a)));
          [ destruct (ApiConnection.opened (Api.connection (api s))) | ];
          repeat split; now eexists.
      + rewrite (on_acceptedAction_other_sender a sd s Ht Hs)
          by (rewrite Hd; discriminate).
        repeat split; now eexists.
    - rewrite (Hmissing a eq_refl Ht Hs). repeat split; now eexists. }
  destruct Hshape as (H1 & H2 & H3 & H4 & H5).
  repeat (split; [ assumption | ]).
  split; [ | split; [ exact Hmissing | exact Hsecure ] ].
  intros Hcase. destruct (Hother Hcase) as [-> | ->]; reflexivity.
Qed.

(** X14: the two halves of the link meet.  When the accepting device signs
    the nonce of the challenge that [createSecureActionUrl] stored on the
    first device, and the relay reports that signature with the address it
    recovers to, the first device resolves the challenge for a new account
    device to the LinkAction that names that address. *)
Theorem secure_link_handshake
    (entropy : nat -> Byte.byte) (version : option nat) (reply_to : option string)
    (signature : Buffer) (address : string) (env : Env) (first second : t) :
  let nonce := randomBytes 16 entropy in
  let challenged :=
    snd (createSecureActionUrl encodeApiEvent buildActionUrl CreateAccountDevice
           entropy first) in
  let accepted :=
    {| action_type := Secure;
       action_payload := ISecure version nonce;
       sender := Some {| sender_type := Device; sender_data := reply_to |} |} in
  ApiConnection.opened (Api.connection (api second)) = true ->
  signPersonalMessage (Some nonce) = Ok signature ->
  recoverAddressFromPersonalMessage nonce (anyToHex signature) = Some address ->
  ApiConnection.sent
    (Api.connection
       (api (snd (on_acceptedAction encodeApiEvent anyToHex signPersonalMessage
                    (Some accepted) second))))
  = (ApiConnection.sent (Api.connection (api second))
     ++ [encodeApiEvent
           {| type := SignedSecureAction;
              payload := Some (ISignedSecureAction Absent reply_to (anyToHex signature)) |}])%list
  /\ forall recipient,
      incomingAction
        (snd (on_event encodeApiEvent recoverAddressFromPersonalMessage muted_emits env
                {| type := SignedSecureAction;
                   payload := Some (ISignedSecureAction (Given address) recipient
                                      (anyToHex signature)) |}
                challenged))
      = (incomingAction first
         ++ [ {| action_type := CreateAccountDevice;
                 action_payload :=
                   ICreateAccountDevice (network_version first) (Some address) None;
                 sender := Some {| sender_type := Device;
                                   sender_data := Some address |} |} ])%list.
Proof.
  intros nonce challenged accepted Hopened Hsign Hrecover. split.
  - rewrite (on_acceptedAction_secure accepted
               {| sender_type := Device; sender_data := reply_to |} second
               eq_refl eq_refl eq_refl).
    cbn [accepted action_payload payload_hash]. rewrite Hsign, Hopened. reflexivity.
  - intros recipient. subst challenged.
    rewrite on_signed_event, (createSecureActionUrl_spec encodeApiEvent buildActionUrl).
    cbn [fst snd]. rewrite requested_incomingAction.
    unfold resolves. cbn [secureAction with_secureAction secure_hash secure_type].
    fold nonce. rewrite Hrecover.
    rewrite !bool_decide_eq_true_2 by reflexivity. cbn [andb].
    unfold next_incomingAction, resolved_action. cbn [incomingAction with_secureAction].
    rewrite requested_incomingAction.
    unfold requested.
    now destruct (ApiConnection.opened (Api.connection (api first))).
Qed.

End LinkerProperties.

Section LinkerExamples.

Import ApiEvents Sdk.

(** The link of the first device, as the second device accepts it. *)
Lemma acceptedAction_signs_for_sender_witness :
  fst (on_acceptedAction Scenario.frame_of Scenario.hex_of Scenario.signs_as_B2
         (Some {| action_type := Secure;
                  action_payload := ISecure None (randomBytes 16 Scenario.entropy1);
                  sender := Some {| sender_type := Device;
                                    sender_data := Some "0xA1" |} |})
         Scenario.sdk_online)
  = Ok (Some tt).
Proof.
  destruct (acceptedAction_signs_for_sender Scenario.frame_of Scenario.hex_of
              Scenario.signs_as_B2
              (Some {| action_type := Secure;
                       action_payload := ISecure None (randomBytes 16 Scenario.entropy1);
                       sender := Some {| sender_type := Device;
                                         sender_data := Some "0xA1" |} |})
              Scenario.sdk_online)
    as (_ & _ & _ & _ & _ & _ & _ & Hsecure).
  rewrite (Hsecure _ _ eq_refl eq_refl eq_refl eq_refl). reflexivity.
Defined.

Lemma secure_link_handshake_witness :
  incomingAction
    (snd (on_event Scenario.frame_of Scenario.recover Scenario.on_change
            Scenario.no_backend
            {| type := SignedSecureAction;
               payload :=
                 Some (ISignedSecureAction (Given "0xB2") None
                         (Scenario.hex_of
                            (list_byte_of_string
                               (Scenario.sign "0xB2"
                                  (randomBytes 16 Scenario.entropy1))))) |}
            (snd (createSecureActionUrl Scenario.frame_of Scenario.url_of
                    CreateAccountDevice Scenario.entropy1 Scenario.sdk_online))))
  = [ {| action_type := CreateAccountDevice;
         action_payload := ICreateAccountDevice None (Some "0xB2") None;
         sender := Some {| sender_type := Device; sender_data := Some "0xB2" |} |} ].
Proof.
  destruct (secure_link_handshake Scenario.frame_of Scenario.hex_of Scenario.recover
              Scenario.url_of Scenario.on_change Scenario.signs_as_B2
              Scenario.entropy1 None (Some "0xA1")
              (list_byte_of_string
                 (Scenario.sign "0xB2" (randomBytes 16 Scenario.entropy1)))
              "0xB2" Scenario.no_backend Scenario.sdk_online Scenario.sdk_online)
    as (_ & Hresolved).
  - reflexivity.
  - reflexivity.
  - vm_compute. reflexivity.
  - exact (Hresolved None).
Defined.

End LinkerExamples.
